(** * A shallow embedding of [ligpy/analysis_tools.py]

    The module post-processes the output of the DDASAC ODE solver.  This
    development embeds [load_results], [read_results_files],
    [tar_elem_analysis], [C_fun_gen], [lump_species] and the moisture part of
    [generate_report], and proves the properties of its specification.

    Modelling conventions.
    - Numbers are exact rationals [Q]; numpy's float division is [fdiv], which
      returns NaN or an infinity when the divisor is zero, as numpy does (it
      only warns, it does not raise).
    - A numpy array of shape (n,) or (n,1) is a [list Q]; a matrix is a list of
      rows.  Python indexing (negative indices wrap) is [py_index].
    - A Python dict is a stdpp [gmap]; building it from a sequence of pairs,
      later pairs overwriting earlier ones, is [py_dict].
    - Exceptions are the constructors of [exn]; effects (opening files and
      printing) are recorded in a log.  A computation of type [M A] returns the
      log together with either the exception raised or the value. *)

From Stdlib Require Import QArith String Ascii.
From stdpp Require Import base list gmap strings sorting.

Open Scope Q_scope.

(* ------------------------------------------------------------------ *)
(** ** Python and numpy primitives *)

Inductive exn :=
| ValueError (msg : string)
| IOError (msg : string)
| IndexError
| KeyError (key : string)
| UnpicklingError
| EOFError.

(** Observable effects: a file opened, a line printed. *)
Inductive event :=
| EOpen (path : string)
| EPrint (msg : string).

Definition M (A : Type) : Type := (list event * (exn + A))%type.

Definition ret {A} (a : A) : M A := ([], inr a).
Definition raise {A} (e : exn) : M A := ([], inl e).
Definition bind {A B} (m : M A) (f : A -> M B) : M B :=
  match m with
  | (l, inl e) => (l, inl e)
  | (l, inr a) => let (l', r) := f a in (l ++ l', r)
  end.
Definition print (msg : string) : M unit := ([EPrint msg], inr tt).

Global Instance M_ret : MRet M := @ret.
Global Instance M_bind : MBind M := fun A B f m => bind m f.

(** [try: c except IOError: h] *)
Definition try_io {A} (c : M A) (h : M A) : M A :=
  match c with
  | (l, inl (IOError _)) => let (l', r) := h in (l ++ l', r)
  | r => r
  end.

Definition of_option {A} (e : exn) (o : option A) : M A :=
  match o with Some a => ret a | None => raise e end.

(** Python's [l[i]] on a list, with negative indices counted from the end;
    [None] (Python's [IndexError]) out of range on either side. *)
Definition py_index {A} (l : list A) (i : Z) : option A :=
  if (i <? 0)%Z then
    if (Z.of_nat (length l) + i <? 0)%Z then None
    else l !! Z.to_nat (Z.of_nat (length l) + i)%Z
  else l !! Z.to_nat i.

Definition py_get {A} (l : list A) (i : Z) : M A := of_option IndexError (py_index l i).

(** [d[k]] on a dict. *)
Definition dict_get {V} (d : gmap string V) (k : string) : M V :=
  of_option (KeyError k) (d !! k).

(** [dict(pairs)] and the loop [for k, v in pairs: d[k] = v]. *)
Definition py_dict {K V} `{Countable K} (ps : list (K * V)) : gmap K V :=
  foldl (fun d kv => <[kv.1 := kv.2]> d) ∅ ps.

(** [sum()] of a numpy vector. *)
Definition np_sum (v : list Q) : Q := foldl Qplus 0 v.

(** numpy float values: a finite number, an infinity or NaN. *)
Inductive fval := Fin (q : Q) | PInf | NInf | NaN.

(** numpy's [a / b] on float64. *)
Definition fdiv (a b : Q) : fval :=
  if Qeq_bool b 0 then
    (if Qeq_bool a 0 then NaN else if Qle_bool 0 a then PInf else NInf)
  else Fin (a / b).

(** [v / v.sum()]: numpy broadcasting of a division by a scalar. *)
Definition np_normalize (v : list Q) : list fval :=
  map (fun x => fdiv x (np_sum v)) v.

(** Equality of float values up to the equality of rationals. *)
Definition fval_eq (a b : fval) : Prop :=
  match a, b with
  | Fin p, Fin q => p == q
  | PInf, PInf | NInf, NInf | NaN, NaN => True
  | _, _ => False
  end.

(** The string [c] as a one-character string; tab and newline. *)
Definition chr (n : nat) : string := String (ascii_of_nat n) EmptyString.
Definition tab : string := chr 9.
Definition newline : string := chr 10.

(** [s.split(sep)] for a one-character separator: empty fields are kept. *)
Fixpoint py_split (sep : ascii) (s : string) : list string :=
  match s with
  | EmptyString => [EmptyString]
  | String c rest =>
      let fields := py_split sep rest in
      if Ascii.eqb c sep then EmptyString :: fields
      else match fields with
           | f :: fs => String c f :: fs
           | [] => [String c EmptyString]
           end
  end.

(** [s.replace(c, '')] for a one-character [c]. *)
Fixpoint py_remove (c : ascii) (s : string) : string :=
  match s with
  | EmptyString => EmptyString
  | String d rest => if Ascii.eqb d c then py_remove c rest else String d (py_remove c rest)
  end.

(** [s.find(sub)], -1 when absent. *)
Definition py_find (sub s : string) : Z :=
  match String.index 0 sub s with Some n => Z.of_nat n | None => (-1)%Z end.

(** [f.readlines()]: the lines of a text, each keeping its newline. *)
Fixpoint py_readlines (s : string) : list string :=
  match s with
  | EmptyString => []
  | String c rest =>
      if Ascii.eqb c (ascii_of_nat 10) then String c EmptyString :: py_readlines rest
      else match py_readlines rest with
           | l :: ls => String c l :: ls
           | [] => [String c EmptyString]
           end
  end.

(* ------------------------------------------------------------------ *)
(** ** The file system seen by [load_results] *)

(** A value stored in [prog_params.pkl]. *)
Inductive pval := PNum (q : Q) | PStr (s : string).

(** A file is a text (read with [read] or [readlines]) or a pickled list. *)
Inductive file := TextFile (contents : string) | PickleFile (vals : list pval).

Record fs := { fs_dirs : list string; fs_files : gmap string file }.

(** [os.path.exists] and [os.path.isfile]. *)
Definition os_path_exists (F : fs) (p : string) : bool :=
  bool_decide (p ∈ fs_dirs F) || bool_decide (is_Some (fs_files F !! p)).
Definition os_path_isfile (F : fs) (p : string) : bool :=
  bool_decide (is_Some (fs_files F !! p)).

(** [open(p)]: an [IOError] when there is no such file. *)
Definition py_open (F : fs) (p : string) : M file :=
  match fs_files F !! p with
  | Some f => ([EOpen p], inr f)
  | None => ([EOpen p], inl (IOError p))
  end.

(** The text of an opened file; the bytes of a pickle are not modelled. *)
Definition file_text (f : file) : string :=
  match f with TextFile s => s | PickleFile _ => EmptyString end.

(** [pickle.load(f)]: [EOFError] on an empty file, [UnpicklingError] on a
    file that holds no pickle. *)
Definition pickle_load (f : file) : M (list pval) :=
  match f with
  | PickleFile vs => ret vs
  | TextFile EmptyString => raise EOFError
  | TextFile _ => raise UnpicklingError
  end.

(* ------------------------------------------------------------------ *)
(** ** [read_results_files] *)

Section Loader.

(** numpy's conversion of a field of the file to a float64. *)
Variable to_float : string -> option Q.

Definition py_float (s : string) : M Q := of_option (ValueError s) (to_float s).

(** [for j, concentration in enumerate(fields): y[i-1, j] = concentration],
    starting from the zero row [row]. *)
Fixpoint fill_row (row : list Q) (j : nat) (fields : list string) : M (list Q) :=
  match fields with
  | [] => ret row
  | f :: rest =>
      if bool_decide (j < length row)%nat then
        c ← py_float f; fill_row (<[j := c]> row) (S j) rest
      else raise IndexError
  end.

(** The body of the loop of [read_results_files] on one data line:
    [t[i-1]], the concentrations [y[i-1, :]] and [T[i-1]]. *)
Definition parse_row (nspecies : nat) (line : string) : M (Q * list Q * Q) :=
  let fields := py_split (ascii_of_nat 9) line in
  f0 ← py_get fields 0;
  tstr ← py_get (py_split " "%char f0) 1;
  tv ← py_float tstr;
  Tstr ← py_get fields (-2);
  Tv ← py_float Tstr;
  row ← fill_row (replicate nspecies 0) 0 (drop 1 (take (length fields - 2) fields));
  mret (tv, row, Tv).

(** [read_results_files(filename, specieslist_ddasac)].  The loop
    [for i, line in enumerate(lines): if 1 <= i < num_lines + 1: ...] visits
    exactly the lines [1 .. num_lines]. *)
Definition read_results_files (F : fs) (filename : string) (specieslist_ddasac : list string)
  : M (list Q * list (list Q) * list Q) :=
  result ← py_open F filename;
  let lines := py_readlines (file_text result) in
  if bool_decide (length lines < 7)%nat
  then raise (ValueError "negative dimensions are not allowed")
  else
    let num_lines := (length lines - 7)%nat in
    result' ← py_open F filename;
    rows ← mapM (parse_row (length specieslist_ddasac)) (take num_lines (drop 1 lines));
    mret (map (fun r => r.1.1) rows, map (fun r => r.1.2) rows, map (fun r => r.2) rows).

End Loader.

(* ------------------------------------------------------------------ *)
(** ** The species order of [model.c] and the index dictionaries *)

(** Lines 87-104: the comma-separated list between [enum {] and the next
    [}] (read within 1000 characters), newlines and spaces removed. *)
Definition species_from_modelc (body : string) : list string :=
  let spos := py_find "enum {" body in
  let listiwant := substring (Z.to_nat (spos + 6)) 1000 body in
  let species_ddasac :=
    match String.index 0 "}" listiwant with
    | Some i => substring 0 i listiwant
    | None => EmptyString
    end in
  py_split ","%char (py_remove " "%char (py_remove (ascii_of_nat 10) species_ddasac)).

(** Lines 108-114: [speciesindices_ddasac], [indices_to_species_ddasac]
    (built as [dict(zip(d.values(), d.keys()))]) and the sorted list. *)
Definition build_species_maps (specieslist_ddasac : list string)
  : list string * gmap string nat * gmap nat string :=
  let speciesindices_ddasac : gmap string nat :=
    py_dict (zip specieslist_ddasac (seq 0 (length specieslist_ddasac))) in
  let items := map_to_list speciesindices_ddasac in
  let indices_to_species_ddasac : gmap nat string := py_dict (zip items.*2 items.*1) in
  (merge_sort String.le specieslist_ddasac, speciesindices_ddasac, indices_to_species_ddasac).

(* ------------------------------------------------------------------ *)
(** ** Concatenation of a later segment (lines 123-125 and 132-134) *)

(** [y = np.concatenate((y, y2[1:]))], [t = np.concatenate((t, t[-1]+t2[1:]))],
    [T = np.concatenate((T, T2[1:]))]. *)
Definition append_segment (seg : list (list Q) * list Q * list Q)
    (seg2 : list Q * list (list Q) * list Q) : M (list (list Q) * list Q * list Q) :=
  let '(y, t, T) := seg in
  let '(t2, y2, T2) := seg2 in
  let y' := y ++ drop 1 y2 in
  t_end ← py_get t (-1);
  let t' := t ++ map (fun x => t_end + x) (drop 1 t2) in
  let T' := T ++ drop 1 T2 in
  mret (y', t', T').

(* ------------------------------------------------------------------ *)
(** ** [load_results] *)

(** The list returned by [load_results]. *)
Record results := {
  r_params : list pval;  (* end_time, ..., cool_time: prog_params[0..8] *)
  r_y : list (list Q);
  r_t : list Q;
  r_T : list Q;
  r_specieslist : list string;
  r_speciesindices : gmap string nat;
  r_indices_to_species : gmap nat string
}.

Section Load.

Variable to_float : string -> option Q.

(** [try: <read file k and concatenate> except IOError: print msg]. *)
Definition load_segment (F : fs) (file : string) (specieslist : list string) (msg : string)
    (seg : list (list Q) * list Q * list Q) : M (list (list Q) * list Q * list Q) :=
  try_io (seg2 ← read_results_files to_float F file specieslist; append_segment seg seg2)
         (print msg;; mret seg).

Definition load_results (F : fs) (path : string) : M results :=
  let rpath := (path +:+ "/results_dir")%string in
  if negb (os_path_exists F rpath)
  then raise (ValueError "Please specify a valid directory with a results_dir folder.")
  else
    params ← py_open F (rpath +:+ "/prog_params.pkl");
    prog_params ← pickle_load params;
    ps ← mapM (py_get prog_params) [0; 1; 2; 3; 4; 5; 6; 7; 8]%Z;
    if negb (os_path_isfile F (rpath +:+ "/ddasac_results_1.out"))
    then raise (IOError "There is not a valid DDASAC .out file.")
    else
      modelc ← py_open F (path +:+ "/model.c");
      let '(specieslist_ddasac, speciesindices_ddasac, indices_to_species_ddasac) :=
        build_species_maps (species_from_modelc (file_text modelc)) in
      '(t, y, T) ← read_results_files to_float F (rpath +:+ "/ddasac_results_1.out")
                     specieslist_ddasac;
      seg ← load_segment F (rpath +:+ "/ddasac_results_2.out") specieslist_ddasac
              "There is not a second DDASAC results file (isothermal hold)" (y, t, T);
      seg ← load_segment F (rpath +:+ "/ddasac_results_3.out") specieslist_ddasac
              "There is not a third DDASAC results file (cool down period)" seg;
      let '(y, t, T) := seg in
      mret {| r_params := ps; r_y := y; r_t := t; r_T := T;
              r_specieslist := specieslist_ddasac;
              r_speciesindices := speciesindices_ddasac;
              r_indices_to_species := indices_to_species_ddasac |}.

End Load.

(* ------------------------------------------------------------------ *)
(** ** A small run of the loader *)

(** A float parser for the sample files below: unsigned decimal integers,
    surrounding spaces and newlines ignored. *)
Fixpoint digits_value (s : string) (acc : option Z) : option Z :=
  match s with
  | EmptyString => acc
  | String c rest =>
      let n := nat_of_ascii c in
      if bool_decide (48 <= n <= 57)%nat then
        digits_value rest (Some (10 * default 0%Z acc + Z.of_nat (n - 48))%Z)
      else if bool_decide (n = 32 \/ n = 10)%nat then digits_value rest acc
      else None
  end.
Definition sample_float (s : string) : option Q :=
  match digits_value s None with Some z => Some (inject_Z z) | None => None end.

Definition sample_line (fields : list string) : string :=
  (String.concat tab fields +:+ newline)%string.

(** A DDASAC output with a header, [rows] and six lines of footer. *)
Definition sample_out (rows : list (list string)) : file :=
  TextFile (String.concat "" (sample_line ["header"] :: map sample_line rows
                                ++ replicate 6 (sample_line ["footer"]))).

Definition sample_fs (modelc : string) (out1 out2 : option file) : fs :=
  {| fs_dirs := ["run/results_dir"];
     fs_files :=
       <["run/results_dir/prog_params.pkl" := PickleFile (replicate 9 (PNum 1))]>
       (<["run/model.c" := TextFile modelc]>
        (match out1 with Some f => <["run/results_dir/ddasac_results_1.out" := f]> ∅
                       | None => ∅ end
         ∪ match out2 with Some f => <["run/results_dir/ddasac_results_2.out" := f]> ∅
                         | None => ∅ end)) |}.

Definition sample_modelc : string := "int x; enum { B, A } ; end".

Definition sample_fs_ab : fs :=
  sample_fs sample_modelc
    (Some (sample_out [["r 0"; "3"; "4"; "300"; "0"]; ["r 5"; "1"; "2"; "310"; "0"]]))
    (Some (sample_out [["r 0"; "1"; "2"; "310"; "0"]; ["r 2"; "0"; "3"; "320"; "0"]])).

Definition sample_result : results :=
  {| r_params := replicate 9 (PNum 1);
     r_y := [[3; 4]; [1; 2]; [0; 3]]; r_t := [0; 5; 7]; r_T := [300; 310; 320];
     r_specieslist := ["A"; "B"]%string;
     r_speciesindices := <["A" := 1%nat]> (<["B" := 0%nat]> ∅);
     r_indices_to_species := <[1%nat := "A"]> (<[0%nat := "B"]> ∅) |}.


(* ------------------------------------------------------------------ *)
(** ** The species-property table [MW] *)

(** Modelled from the spec: the table [MW] of [constants.py], which is not
    among the sources.  [MW[species]] is the list
    [[placeholder, phase tag, subfamily tag, (C, H, O) contributions,
    7 functional-group contributions]]; the code reads its entries by
    position, so the two vectors are lists read with Python indexing. *)
Record mw_entry := {
  mw_placeholder : Q;        (* MW[species][0] *)
  mw_phase : string;         (* MW[species][1]: s, t, lt, g, CO, CO2, H2O, char *)
  mw_family : string;        (* MW[species][2]: p (phenol), s (syringol), ... *)
  mw_elem : list Q;          (* MW[species][3] *)
  mw_fgroups : list Q        (* MW[species][4] *)
}.

(** [for x in l: acc = f(acc, x)] in the monad. *)
Fixpoint foldlM {A B} (f : A -> B -> M A) (a : A) (l : list B) : M A :=
  match l with
  | [] => mret a
  | b :: l' => a' ← f a b; foldlM f a' l'
  end.

(** [y[i, j]] on a numpy matrix. *)
Definition np_get2 (y : list (list Q)) (i : Z) (j : nat) : M Q :=
  row ← py_get y i; py_get row (Z.of_nat j).

(** [v[k] += c * w[k]] for every component [k]. *)
Definition axpy (v : list Q) (c : Q) (w : list Q) : list Q :=
  zip_with (fun a b => a + c * b) v w.

(** The atomic weights of C, H and O used by [tar_elem_analysis]. *)
Definition atomic_weights : list Q := [12.011; 1.0079; 15.999].

(** The phase tags of the tar fraction: [set(['t', 'lt', 'H2O'])]. *)
Definition tar_phases : list string := ["t"; "lt"; "H2O"].

Inductive t_choice := TEnd | TIndex (i : Z).

(** The string [choice] of [tar_elem_analysis]: the end of the simulation,
    or [Analysis done at time = t[t_index] sec.]. *)
Inductive choice_msg := ChoiceEnd | ChoiceAt (row : Q).

(** The tuple returned by [tar_elem_analysis]. *)
Record elem_analysis := {
  ea0 : list Q; ea : list Q;
  ea0_molpercent : list fval; ea_molpercent : list fval;
  ea0_wtpercent : list fval; ea_wtpercent : list fval;
  choice : choice_msg; t_index : Z
}.

Section Analysis.

Variable MW : list (string * mw_entry).

(** [MW[species][3][0], MW[species][3][1], MW[species][3][2]]. *)
Definition elem_contrib (e : mw_entry) : M (list Q) :=
  e0 ← py_get (mw_elem e) 0; e1 ← py_get (mw_elem e) 1; e2 ← py_get (mw_elem e) 2;
  mret [e0; e1; e2].

(** [MW[species][4][0..6]]. *)
Definition fgroup_contrib (e : mw_entry) : M (list Q) :=
  mapM (py_get (mw_fgroups e)) [0; 1; 2; 3; 4; 5; 6]%Z.

(** One iteration of the loop computing [ea0] (lines 233-238). *)
Definition ea0_step (speciesindices : gmap string nat) (y : list (list Q))
    (acc : list Q) (sp : string * mw_entry) : M (list Q) :=
  i ← dict_get speciesindices sp.1;
  c ← np_get2 y 0 i;
  if Qeq_bool c 0 then mret acc
  else w ← elem_contrib sp.2; mret (axpy acc c w).

(** One iteration of the loop computing [ea] (lines 250-254). *)
Definition ea_step (speciesindices : gmap string nat) (y : list (list Q)) (t_index : Z)
    (acc : list Q) (sp : string * mw_entry) : M (list Q) :=
  if bool_decide (mw_phase sp.2 ∈ tar_phases) then
    i ← dict_get speciesindices sp.1;
    c ← np_get2 y t_index i;
    w ← elem_contrib sp.2;
    mret (axpy acc c w)
  else mret acc.

Definition tar_elem_analysis (speciesindices : gmap string nat) (y : list (list Q))
    (t : list Q) (tc : t_choice) : M elem_analysis :=
  ea0 ← foldlM (ea0_step speciesindices y) [0; 0; 0] MW;
  '(t_index, choice) ←
    match tc with
    | TEnd => mret ((Z.of_nat (length t) - 1)%Z, ChoiceEnd)
    | TIndex i => ti ← py_get t i; mret (i, ChoiceAt ti)
    end;
  ea ← foldlM (ea_step speciesindices y t_index) [0; 0; 0] MW;
  let ea_g := zip_with Qmult ea atomic_weights in
  let ea0_g := zip_with Qmult ea0 atomic_weights in
  mret {| ea0 := ea0; ea := ea;
          ea0_molpercent := np_normalize ea0; ea_molpercent := np_normalize ea;
          ea0_wtpercent := np_normalize ea0_g; ea_wtpercent := np_normalize ea_g;
          choice := choice; t_index := t_index |}.

(** One iteration of the loop of [C_fun_gen]; the state is [(C_fun, time)]
    since the ['initial'] branch assigns [time = 0]. *)
Definition cfun_step (fractions : list string) (speciesindices : gmap string nat)
    (y : list (list Q)) (st : list Q * Z) (sp : string * mw_entry) : M (list Q * Z) :=
  let '(C_fun, time) := st in
  if bool_decide (fractions = ["initial"]) then
    let time := 0%Z in
    i ← dict_get speciesindices sp.1;
    c ← np_get2 y time i;
    if Qeq_bool c 0 then mret (C_fun, time)
    else w ← fgroup_contrib sp.2; mret (axpy C_fun c w, time)
  else if bool_decide (mw_phase sp.2 ∈ fractions) then
    i ← dict_get speciesindices sp.1;
    c ← np_get2 y time i;
    w ← fgroup_contrib sp.2;
    mret (axpy C_fun c w, time)
  else mret (C_fun, time).

Definition C_fun_gen (fractions : list string) (speciesindices : gmap string nat)
    (y : list (list Q)) (time : Z) : M (list fval) :=
  '(C_fun, _) ← foldlM (cfun_step fractions speciesindices y) (replicate 7 0, time) MW;
  mret (np_normalize C_fun).

(** [m[:, j]]. *)
Definition np_column (m : list (list Q)) (j : nat) : M (list Q) :=
  mapM (fun row => py_get row (Z.of_nat j)) m.

(** [A[:, k] += col]. *)
Definition add_to_column (A : list (list Q)) (k : nat) (col : list Q) : list (list Q) :=
  zip_with (fun row x => alter (fun v => v + x) k row) A col.

(** [A[:, k] += m[:, speciesindices[species]]]. *)
Definition add_species_column (speciesindices : gmap string nat) (m : list (list Q))
    (species : string) (A : list (list Q)) (k : nat) : M (list (list Q)) :=
  i ← dict_get speciesindices species;
  col ← np_column m i;
  mret (add_to_column A k col).

(** One iteration of the loop of [lump_species] (lines 359-380); the state is
    [(lumped, phenolic_families)]. *)
Definition lump_step (speciesindices : gmap string nat) (m : list (list Q))
    (st : list (list Q) * list (list Q)) (sp : string * mw_entry)
    : M (list (list Q) * list (list Q)) :=
  let '(lumped, phenolic_families) := st in
  let '(species, e) := sp in
  let add k := add_species_column speciesindices m species lumped k in
  if String.eqb (mw_phase e) "s" then l ← add 0%nat; mret (l, phenolic_families)
  else if String.eqb (mw_phase e) "t" then
    l ← add 1%nat;
    if String.eqb (mw_family e) "p" then
      p ← add_species_column speciesindices m species phenolic_families 0%nat; mret (l, p)
    else if String.eqb (mw_family e) "s" then
      p ← add_species_column speciesindices m species phenolic_families 1%nat; mret (l, p)
    else mret (l, phenolic_families)
  else if String.eqb (mw_phase e) "lt" then l ← add 2%nat; mret (l, phenolic_families)
  else if String.eqb (mw_phase e) "g" then l ← add 3%nat; mret (l, phenolic_families)
  else if String.eqb (mw_phase e) "CO" then l ← add 4%nat; mret (l, phenolic_families)
  else if String.eqb (mw_phase e) "CO2" then l ← add 5%nat; mret (l, phenolic_families)
  else if String.eqb (mw_phase e) "H2O" then l ← add 6%nat; mret (l, phenolic_families)
  else if String.eqb (mw_phase e) "char" then l ← add 7%nat; mret (l, phenolic_families)
  else print (species +:+ " does not have a phase defined.");; mret (lumped, phenolic_families).

(** [morelumped] (lines 383-386). *)
Definition more_lumped (lumped : list (list Q)) : list (list Q) :=
  map (fun r => [nth 0 r 0 + nth 7 r 0; nth 1 r 0 + nth 2 r 0 + nth 6 r 0;
                 nth 3 r 0 + nth 4 r 0 + nth 5 r 0]) lumped.

Definition lump_species (speciesindices : gmap string nat) (m : list (list Q))
  : M (list (list Q) * list (list Q) * list (list Q)) :=
  '(lumped, phenolic_families) ←
    foldlM (lump_step speciesindices m)
      (replicate (length m) (replicate 8 0), replicate (length m) (replicate 2 0)) MW;
  mret (lumped, phenolic_families, more_lumped lumped).

(** [if MW[species][1] in set(['t', 'lt', 'H2O']): mtot += m[t_index, speciesindices[species]]] *)
Definition mtot_step (speciesindices : gmap string nat) (m : list (list Q)) (t_index : Z)
    (mtot : list Q) (sp : string * mw_entry) : M (list Q) :=
  if bool_decide (mw_phase sp.2 ∈ tar_phases) then
    i ← dict_get speciesindices sp.1;
    x ← np_get2 m t_index i;
    mret (map (fun a => a + x) mtot)
  else mret mtot.

(** The tar moisture content of [generate_report] (lines 419-458): [mtot]
    starts as the list [[0]], which numpy turns into a one-element array at
    the first [+=]; the value printed is [mc[0]]. *)
Definition report_moisture (speciesindices : gmap string nat) (y m : list (list Q))
    (t : list Q) : M fval :=
  res ← tar_elem_analysis speciesindices y t TEnd;
  let t_index := t_index res in
  mtot ← foldlM (mtot_step speciesindices m t_index) [0] MW;
  iw ← dict_get speciesindices "H2O";
  w ← np_get2 m t_index iw;
  let mc := map (fdiv w) mtot in
  py_get mc 0.

End Analysis.


(* ------------------------------------------------------------------ *)
(** ** A small species table for examples *)

Definition sample_entry (phase family : string) (elem fgroups : list Q) : mw_entry :=
  {| mw_placeholder := 0; mw_phase := phase; mw_family := family;
     mw_elem := elem; mw_fgroups := fgroups |}.

Definition sample_MW : list (string * mw_entry) :=
  [("PLIGC", sample_entry "s" "" [15; 14; 4] [1; 4; 2; 3; 1; 2; 2]);
   ("PHENOL", sample_entry "t" "p" [6; 6; 1] [0; 1; 1; 4; 0; 0; 0]);
   ("H2O", sample_entry "H2O" "" [0; 2; 1] [0; 0; 0; 0; 0; 0; 0]);
   ("CO2", sample_entry "CO2" "" [1; 0; 2] [1; 0; 0; 0; 0; 0; 0])]%string.

Definition sample_si : gmap string nat :=
  py_dict (zip ["PLIGC"; "PHENOL"; "H2O"; "CO2"]%string (seq 0 4)).

Definition sample_y : list (list Q) := [[2; 0; 0; 0]; [1; 1; 1; 1]].
Definition sample_m : list (list Q) := [[1; 0; 0; 0]; [1/4; 1/4; 1/4; 1/4]].

(* ------------------------------------------------------------------ *)
(** ** Quantities the properties are stated with *)

(** A normalised vector: finite values summing to 1. *)
Definition sums_to_one (v : list fval) : Prop :=
  exists w, v = map Fin w /\ np_sum w == 1.

(** The phase tags that have a column in [lumped]. *)
Definition lump_phases : list string := ["s"; "t"; "lt"; "g"; "CO"; "CO2"; "H2O"; "char"].

(** The mass of the species of [MW] whose phase tag is in [phases], read from
    the row [row] of a mass-fraction matrix. *)
Definition phase_mass (phases : list string) (MW : list (string * mw_entry))
    (speciesindices : gmap string nat) (row : list Q) : Q :=
  np_sum (map (fun sp => if bool_decide (mw_phase sp.2 ∈ phases)
                         then default 0 (speciesindices !! sp.1 ≫= fun i => row !! i)
                         else 0) MW).

(** Every row of the matrix [A] has [w] columns. *)
Definition rows_of_width (w : nat) (A : list (list Q)) : Prop :=
  forall r row, A !! r = Some row -> length row = w.

(** A species table with a species whose phase tag is not one of the eight
    phases of [lump_species]. *)
Definition untagged_MW : list (string * mw_entry) :=
  [("A", sample_entry "s" "" [1; 0; 0] []);
   ("B", sample_entry "x" "" [0; 0; 0] [])]%string.

Definition untagged_si : gmap string nat := py_dict (zip ["A"; "B"]%string (seq 0 2)).

Definition untagged_m : list (list Q) := [[1/2; 1/2]].

(** How the code reads one data line: the time is the second space-separated
    token of field 0, the temperature is field [-2] (the one before the last),
    and the concentrations are the fields [1:-2], one per species in the order
    of [model.c], the row being padded with zeros. *)
Definition data_line_layout (to_float : string -> option Q) (nspecies : nat)
    (line : string) (tv : Q) (row : list Q) (Tv : Q) : Prop :=
  let fields := py_split (ascii_of_nat 9) line in
  let concs := drop 1 (take (length fields - 2) fields) in
  (exists f0 tstr, py_index fields 0 = Some f0 /\
     py_index (py_split " "%char f0) 1 = Some tstr /\ to_float tstr = Some tv) /\
  (exists Tstr, py_index fields (-2) = Some Tstr /\ to_float Tstr = Some Tv) /\
  length row = nspecies /\ (length concs <= nspecies)%nat /\
  (forall k f, concs !! k = Some f -> to_float f = row !! k) /\
  (forall k, (length concs <= k < nspecies)%nat -> row !! k = Some 0).

(* ------------------------------------------------------------------ *)
(** ** Quantities of the further properties *)

(** A species name as it can appear in the [enum] of [model.c]: no comma,
    no closing brace, no space and no newline. *)
Definition plain_name (n : string) : bool :=
  forallb (fun c => negb (Ascii.eqb c ",") && negb (Ascii.eqb c "}") &&
                    negb (Ascii.eqb c " ") && negb (Ascii.eqb c (ascii_of_nat 10)))
    (list_ascii_of_string n).

(** The mass of the species of [MW] selected by [sel], read from the row
    [row] of a mass-fraction matrix (a species missing from
    [speciesindices] counts as 0). *)
Definition tagged_mass (sel : mw_entry -> bool) (MW : list (string * mw_entry))
    (speciesindices : gmap string nat) (row : list Q) : Q :=
  np_sum (map (fun sp => if sel sp.2
                         then default 0 (speciesindices !! sp.1 ≫= fun i => row !! i)
                         else 0) MW).

(** The species of column [k] of [lumped]: phase tag [lump_phases[k]]. *)
Definition lump_column (k : nat) (e : mw_entry) : bool :=
  String.eqb (mw_phase e) (nth k lump_phases EmptyString).

(** The species of column [j] of [phenolic_families]: tar ([t]) species of
    the phenol ([p]) family for [j = 0], of the syringol ([s]) family for
    [j = 1]. *)
Definition phenolic_column (j : nat) (e : mw_entry) : bool :=
  String.eqb (mw_phase e) "t" && String.eqb (mw_family e) (nth j ["p"; "s"] EmptyString).

(** The notices printed for the species of [MW] whose phase tag has no
    column in [lumped], in the order of [MW]. *)
Definition phase_notices (MW : list (string * mw_entry)) : list event :=
  map (fun sp => EPrint (sp.1 +:+ " does not have a phase defined."))
      (filter (fun sp => mw_phase sp.2 ∉ lump_phases) MW).

(** The component [k] of the sum over the species of [MW] selected by [sel]
    of their value in [row] times their vector [vec]. *)
Definition weighted_sum (sel : mw_entry -> bool) (vec : mw_entry -> list Q)
    (MW : list (string * mw_entry)) (speciesindices : gmap string nat) (row : list Q)
    (k : nat) : Q :=
  np_sum (map (fun sp => if sel sp.2
                         then default 0 (speciesindices !! sp.1 ≫= fun i => row !! i)
                              * nth k (vec sp.2) 0
                         else 0) MW).

(** A run whose [prog_params.pkl] holds a single value. *)
Definition short_params_fs : fs :=
  {| fs_dirs := ["run/results_dir"];
     fs_files := <["run/results_dir/prog_params.pkl" := PickleFile [PNum 1]]> ∅ |}.

(** A run with a first DDASAC file of one data line and no later file. *)
Definition one_segment_fs : fs :=
  sample_fs sample_modelc (Some (sample_out [["r 0"; "3"; "4"; "300"; "0"]])) None.

(* ================================================================== *)
(** * Properties *)

(** The sample run loads the two segments and skips the missing third one. *)
Example sample_load :
  load_results sample_float sample_fs_ab "run"
  = ([EOpen "run/results_dir/prog_params.pkl"; EOpen "run/model.c";
      EOpen "run/results_dir/ddasac_results_1.out"; EOpen "run/results_dir/ddasac_results_1.out";
      EOpen "run/results_dir/ddasac_results_2.out"; EOpen "run/results_dir/ddasac_results_2.out";
      EOpen "run/results_dir/ddasac_results_3.out";
      EPrint "There is not a third DDASAC results file (cool down period)"],
     inr sample_result).
Proof. vm_compute. reflexivity. Qed.

(* ------------------------------------------------------------------ *)
(** ** Helper lemmas on sorted lists of rationals *)

Lemma StronglySorted_Qle_lookup (l : list Q) (i j : nat) (x y : Q) :
  StronglySorted Qle l -> l !! i = Some x -> l !! j = Some y -> (i <= j)%nat -> x <= y.
Proof.
  revert i j. induction l as [|a l IH]; intros i j Hs Hi Hj Hij; [done |].
  inversion Hs as [|? ? Hsl Hall]; subst.
  destruct i as [|i], j as [|j]; simpl in *.
  - injection Hi; injection Hj; intros; subst. apply Qle_refl.
  - injection Hi; intros; subst. rewrite List.Forall_forall in Hall.
    apply Hall. apply list_elem_of_In. eapply list_elem_of_lookup_2; eauto.
  - lia.
  - eapply IH; eauto. lia.
Qed.

Lemma StronglySorted_Qle_map_plus (c : Q) (l : list Q) :
  StronglySorted Qle l -> StronglySorted Qle (map (fun x => c + x) l).
Proof.
  induction l as [|a l IH]; intros Hs; simpl; constructor.
  - inversion Hs; auto.
  - inversion Hs as [|? ? _ Hall]; subst. rewrite List.Forall_forall in Hall |- *.
    intros z Hz. apply in_map_iff in Hz as (x & <- & Hx).
    apply Qplus_le_r. auto.
Qed.

Lemma StronglySorted_drop {A} (R : relation A) (n : nat) (l : list A) :
  StronglySorted R l -> StronglySorted R (drop n l).
Proof.
  revert l. induction n as [|n IH]; intros l Hs; [done |].
  destruct l; simpl; [constructor |]. inversion Hs; auto.
Qed.

Lemma py_index_last {A} (l : list A) :
  l <> [] -> exists x, py_index l (-1) = Some x /\ l !! (length l - 1)%nat = Some x.
Proof.
  intros Hl. unfold py_index. simpl.
  destruct (lookup_lt_is_Some_2 l (length l - 1)%nat) as [x Hx].
  { destruct l; [done | simpl; lia]. }
  exists x. split; [| done].
  rewrite (proj2 (Z.ltb_ge (Z.of_nat (length l) + -1) 0)) by (destruct l; [done | simpl; lia]).
  replace (Z.to_nat (Z.of_nat (length l) + -1)) with (length l - 1)%nat by lia. done.
Qed.

(* ------------------------------------------------------------------ *)
(** ** C1: concatenation of two segments *)

(** C1. For two non-empty segments, [append_segment] (lines 123-125 of
    [load_results]) drops the first row of the later segment and offsets its
    times by the last time [t_end] of the first one: the combined time array
    is [t1 ++ (t_end + t2[1:])], of length [n1 + n2 - 1]; it is non-decreasing
    when both segments are non-decreasing and the later one starts at a
    non-negative relative time. *)
Theorem append_segment_times (y1 y2 : list (list Q)) (t1 T1 t2 T2 : list Q) :
  t1 <> [] -> t2 <> [] ->
  exists t_end t,
    py_index t1 (-1) = Some t_end /\
    append_segment (y1, t1, T1) (t2, y2, T2) = ([], inr (y1 ++ drop 1 y2, t, T1 ++ drop 1 T2)) /\
    t = t1 ++ map (fun x => t_end + x) (drop 1 t2) /\
    length t = (length t1 + length t2 - 1)%nat /\
    (Sorted Qle t1 -> Sorted Qle t2 -> (forall x0, t2 !! 0%nat = Some x0 -> 0 <= x0) ->
     Sorted Qle t).
Proof.
  intros Ht1 Ht2.
  destruct (py_index_last t1 Ht1) as (t_end & Hend & Hlast).
  exists t_end, (t1 ++ map (fun x => t_end + x) (drop 1 t2)).
  split; [done |]. split.
  { unfold append_segment, py_get. rewrite Hend. reflexivity. }
  split; [done |]. split.
  { rewrite length_app, length_map, length_drop. destruct t2; [done | simpl; lia]. }
  intros Hs1 Hs2 Hpos.
  apply Sorted_StronglySorted in Hs1; [| intros ???; apply Qle_trans].
  apply Sorted_StronglySorted in Hs2; [| intros ???; apply Qle_trans].
  apply StronglySorted_Sorted. apply StronglySorted_app. split_and!.
  - intros x1 x2 Hx1 Hx2.
    apply list_elem_of_lookup in Hx1 as [i Hi].
    apply list_elem_of_In, in_map_iff in Hx2 as (z & <- & Hz).
    destruct t2 as [|x0 t2']; [done |]. simpl in Hz.
    assert (Hle1 : x1 <= t_end).
    { eapply (StronglySorted_Qle_lookup t1 i (length t1 - 1)); eauto. apply lookup_lt_Some in Hi. lia. }
    assert (Hx0z : x0 <= z).
    { inversion Hs2 as [|? ? _ Hall]; subst. rewrite List.Forall_forall in Hall. auto. }
    assert (H0 : 0 <= x0) by (apply Hpos; reflexivity).
    apply Qle_trans with t_end; [done |].
    rewrite <- (Qplus_0_r t_end) at 1. apply Qplus_le_r.
    apply Qle_trans with x0; done.
  - done.
  - apply StronglySorted_Qle_map_plus, StronglySorted_drop, Hs2.
Qed.

(* ------------------------------------------------------------------ *)
(** ** Helper lemmas on [py_dict] and the species dictionaries *)

Lemma py_dict_foldl_lookup {K V} `{Countable K} (ps : list (K * V)) (m : gmap K V) k v :
  foldl (fun d kv => <[kv.1 := kv.2]> d) m ps !! k = Some v ->
  m !! k = Some v \/ (k, v) ∈ ps.
Proof.
  revert m. induction ps as [|[k' v'] ps IH]; intros m Hl; simpl in *; [auto |].
  destruct (IH _ Hl) as [Hm | Hin]; [| right; by constructor].
  destruct (decide (k = k')) as [-> | Hne].
  - rewrite lookup_insert_eq in Hm. injection Hm as ->. right. by constructor.
  - rewrite lookup_insert_ne in Hm by congruence. auto.
Qed.

Lemma py_dict_foldl_is_Some {K V} `{Countable K} (ps : list (K * V)) (m : gmap K V) k :
  is_Some (m !! k) \/ k ∈ ps.*1 ->
  is_Some (foldl (fun d kv => <[kv.1 := kv.2]> d) m ps !! k).
Proof.
  revert m. induction ps as [|[k' v'] ps IH]; intros m Hk; simpl in *.
  - destruct Hk as [? | Hin]; [done | by apply elem_of_nil in Hin].
  - apply IH. destruct (decide (k = k')) as [-> | Hne].
    + left. rewrite lookup_insert_eq. eauto.
    + rewrite lookup_insert_ne by congruence.
      destruct Hk as [? | Hin]; [auto |]. right.
      apply elem_of_cons in Hin as [? | ?]; [congruence | done].
Qed.

Lemma py_dict_lookup {K V} `{Countable K} (ps : list (K * V)) k v :
  py_dict ps !! k = Some v -> (k, v) ∈ ps.
Proof.
  intros Hl. destruct (py_dict_foldl_lookup ps ∅ k v Hl) as [He | ?]; [| done].
  by rewrite lookup_empty in He.
Qed.

Lemma py_dict_is_Some {K V} `{Countable K} (ps : list (K * V)) k :
  k ∈ ps.*1 -> is_Some (py_dict ps !! k).
Proof. intros Hk. apply py_dict_foldl_is_Some. auto. Qed.

Lemma elem_of_zip_seq (l : list string) (st : nat) s i :
  (s, i) ∈ zip l (seq st (length l)) -> (st <= i)%nat /\ l !! (i - st)%nat = Some s.
Proof.
  revert st. induction l as [|a l IH]; intros st Hin; simpl in *.
  - by apply elem_of_nil in Hin.
  - apply elem_of_cons in Hin as [Heq | Hin].
    + injection Heq as -> ->. split; [lia |]. by rewrite Nat.sub_diag.
    + destruct (IH (S st) Hin) as [Hle Hl]. split; [lia |].
      replace (i - st)%nat with (S (i - S st)) by lia. done.
Qed.

(** [speciesindices_ddasac[s] = i] only when [s] is the [i]-th species. *)
Lemma speciesindices_lookup (l : list string) s i :
  py_dict (zip l (seq 0 (length l))) !! s = Some i -> l !! i = Some s.
Proof.
  intros Hl. apply py_dict_lookup, elem_of_zip_seq in Hl as [_ Hl].
  by rewrite Nat.sub_0_r in Hl.
Qed.

Lemma speciesindices_is_Some (l : list string) s :
  s ∈ l -> is_Some (py_dict (zip l (seq 0 (length l))) !! s).
Proof.
  intros Hs. apply py_dict_is_Some. rewrite fst_zip; [done |]. rewrite length_seq. lia.
Qed.

Lemma zip_snd_fst {A B} (l : list (A * B)) : zip l.*2 l.*1 = (fun p => (p.2, p.1)) <$> l.
Proof. induction l as [|[a b] l IH]; [done |]. cbn. f_equal. exact IH. Qed.

(** [indices_to_species_ddasac] inverts [speciesindices_ddasac]. *)
Lemma indices_to_species_inverse (l : list string) s :
  s ∈ l ->
  exists i,
    (build_species_maps l).1.2 !! s = Some i /\ (build_species_maps l).2 !! i = Some s.
Proof.
  intros Hs. unfold build_species_maps; simpl.
  set (si := py_dict (zip l (seq 0 (length l)))).
  destruct (speciesindices_is_Some l s Hs) as [i Hi]. fold si in Hi.
  exists i. split; [done |].
  assert (Hin : (i, s) ∈ zip (map_to_list si).*2 (map_to_list si).*1).
  { rewrite zip_snd_fst. apply list_elem_of_fmap. exists (s, i).
    split; [done |]. by apply elem_of_map_to_list. }
  destruct (py_dict_is_Some (zip (map_to_list si).*2 (map_to_list si).*1) i) as [s' Hs'].
  { rewrite fst_zip; [| by rewrite !length_fmap].
    apply list_elem_of_fmap. exists (s, i). split; [done |]. by apply elem_of_map_to_list. }
  rewrite Hs'. f_equal.
  apply py_dict_lookup in Hs'. rewrite zip_snd_fst in Hs'.
  apply list_elem_of_fmap in Hs' as ([s'' i'] & Heq & Hin'). simpl in Heq.
  injection Heq as -> ->. apply elem_of_map_to_list in Hin'.
  apply speciesindices_lookup in Hi, Hin'. congruence.
Qed.

(* ------------------------------------------------------------------ *)
(** ** Inversion of a successful [load_results] *)

Lemma bind_inr {A B} (m : M A) (f : A -> M B) log b :
  (m ≫= f) = (log, inr b) ->
  exists l1 a l2, m = (l1, inr a) /\ f a = (l2, inr b).
Proof.
  unfold mbind, M_bind, bind. destruct m as [l1 [e | a]]; [congruence |].
  destruct (f a) as [l2 r] eqn:E. intros [= _ ->]. eauto.
Qed.

Ltac inv_bind H a Hm := apply bind_inr in H as (? & a & ? & Hm & H).

Lemma py_open_inr F p l f :
  py_open F p = (l, inr f) -> fs_files F !! p = Some f.
Proof. unfold py_open. destruct (fs_files F !! p); congruence. Qed.

(** A successful load builds its dictionaries from the species listed in
    [model.c]. *)
Lemma load_results_maps to_float F path log r :
  load_results to_float F path = (log, inr r) ->
  exists modelc,
    fs_files F !! (path +:+ "/model.c")%string = Some modelc /\
    build_species_maps (species_from_modelc (file_text modelc))
    = (r_specieslist r, r_speciesindices r, r_indices_to_species r).
Proof.
  intros H. unfold load_results in H.
  destruct (negb _); [discriminate |].
  inv_bind H params Hp. inv_bind H prog_params Hpp. inv_bind H ps Hps.
  destruct (negb _); [discriminate |].
  inv_bind H modelc Hmodelc.
  apply py_open_inr in Hmodelc. exists modelc. split; [done |].
  simpl in H.
  inv_bind H seg1 Hseg1. destruct seg1 as [[t y] T].
  inv_bind H seg2 Hseg2. inv_bind H seg3 Hseg3. destruct seg3 as [[y' t'] T'].
  cbv [mret M_ret ret] in H. injection H as _ H. subst r. reflexivity.
Qed.

(* ------------------------------------------------------------------ *)
(** ** C2 and C3: the species dictionaries returned by [load_results] *)

(** C2 (as amended).  [speciesindices] maps each species of the [model.c]
    enumeration to its position in that enumeration, which is its column in
    [y]; only the returned species list is sorted (a sorted permutation of the
    enumeration).  Hence a species listed once in the enumeration at position
    [i] has index [i], whatever its rank in the sorted list. *)
Theorem load_results_speciesindices_enum_order to_float F path log r :
  load_results to_float F path = (log, inr r) ->
  exists modelc,
    fs_files F !! (path +:+ "/model.c")%string = Some modelc /\
    let l := species_from_modelc (file_text modelc) in
    r_specieslist r = merge_sort String.le l /\
    Sorted String.le (r_specieslist r) /\ r_specieslist r ≡ₚ l /\
    (NoDup l -> forall i s, l !! i = Some s -> r_speciesindices r !! s = Some i).
Proof.
  intros H. destruct (load_results_maps _ _ _ _ _ H) as (modelc & Hmc & Hb).
  exists modelc. split; [done |]. simpl.
  unfold build_species_maps in Hb. injection Hb as Hsl Hsi _.
  rewrite <- Hsl, <- Hsi. split_and!.
  - done.
  - apply Sorted_merge_sort. exact String.le_total.
  - apply merge_sort_Permutation.
  - intros Hnd i s Hi.
    set (l := species_from_modelc (file_text modelc)) in *.
    assert (Hs : s ∈ l) by (eapply list_elem_of_lookup_2; eauto).
    destruct (speciesindices_is_Some l s Hs) as [j Hj]. rewrite Hj.
    apply speciesindices_lookup in Hj. f_equal.
    eapply NoDup_lookup; eauto.
Qed.

(** C3. For every species [s] of the list returned by [load_results],
    [indices_to_species[speciesindices[s]] == s]: both lookups succeed and
    the round trip gives [s] back. *)
Theorem load_results_index_roundtrip to_float F path log r s :
  load_results to_float F path = (log, inr r) -> s ∈ r_specieslist r ->
  exists i, r_speciesindices r !! s = Some i /\ r_indices_to_species r !! i = Some s.
Proof.
  intros H Hs. destruct (load_results_maps _ _ _ _ _ H) as (modelc & _ & Hb).
  set (l := species_from_modelc (file_text modelc)) in Hb.
  assert (Hs' : s ∈ l).
  { pose proof Hb as Hb'. unfold build_species_maps in Hb'. injection Hb' as Hsl _ _.
    rewrite <- Hsl in Hs. by rewrite merge_sort_Permutation in Hs. }
  destruct (indices_to_species_inverse l s Hs') as [i Hi].
  rewrite Hb in Hi. simpl in Hi. eauto.
Qed.

(** C2 as stated fails: with [model.c] enumerating [B, A], the returned list
    is [["A"; "B"]] but [speciesindices["A"]] is 1, not 0. *)
Lemma speciesindices_alphabetical_counterexample :
  snd (load_results sample_float sample_fs_ab "run") = inr sample_result /\
  ~ (forall k s, r_specieslist sample_result !! k = Some s ->
                 r_speciesindices sample_result !! s = Some k).
Proof.
  split; [vm_compute; reflexivity |].
  intros H. specialize (H 0%nat "A"%string eq_refl). vm_compute in H. discriminate.
Qed.

(* ------------------------------------------------------------------ *)
(** ** C4: the two fatal errors of [load_results] *)

Lemma mapM_py_get_9 (vs : list pval) :
  (9 <= length vs)%nat ->
  exists ps, mapM (py_get vs) [0; 1; 2; 3; 4; 5; 6; 7; 8]%Z = ([], inr ps).
Proof.
  intros Hl.
  do 9 (destruct vs as [|? vs]; [simpl in Hl; lia |]).
  eexists. reflexivity.
Qed.

(** C4. [load_results] raises the configuration error of the specification
    (Python's [ValueError]) when [<path>/results_dir] does not exist, before
    opening or reading anything: the log of effects is empty.  When the
    directory exists, [prog_params.pkl] is missing or holds the nine
    parameters, and [ddasac_results_1.out] is missing, it raises the
    input error of the specification (Python's [IOError]). *)
Theorem load_results_errors to_float F path :
  let rpath := (path +:+ "/results_dir")%string in
  (os_path_exists F rpath = false ->
   load_results to_float F path
   = ([], inl (ValueError "Please specify a valid directory with a results_dir folder."))) /\
  (os_path_exists F rpath = true ->
   (forall f, fs_files F !! (rpath +:+ "/prog_params.pkl")%string = Some f ->
              exists vs, f = PickleFile vs /\ (9 <= length vs)%nat) ->
   fs_files F !! (rpath +:+ "/ddasac_results_1.out")%string = None ->
   exists log msg, load_results to_float F path = (log, inl (IOError msg))).
Proof.
  intros rpath. split.
  - intros Hno. unfold load_results. fold rpath. rewrite Hno. reflexivity.
  - intros Hyes Hpp Hno1. unfold load_results. fold rpath. rewrite Hyes. simpl negb.
    cbv iota.
    destruct (fs_files F !! (rpath +:+ "/prog_params.pkl")%string) as [f |] eqn:Ef.
    + destruct (Hpp f eq_refl) as (vs & -> & Hvs).
      destruct (mapM_py_get_9 vs Hvs) as [ps Hps].
      unfold py_open. rewrite Ef. cbn [mbind M_bind bind pickle_load ret].
      rewrite Hps. unfold os_path_isfile. rewrite Hno1. simpl. eauto.
    + unfold py_open. rewrite Ef. simpl. eauto.
Qed.

(* ------------------------------------------------------------------ *)
(** ** C5: the fields of a data line *)

Lemma mapM_inr {A B} (f : A -> M B) (l : list A) log rs :
  mapM f l = (log, inr rs) -> Forall2 (fun x r => exists lg, f x = (lg, inr r)) l rs.
Proof.
  revert log rs. induction l as [|x l IH]; intros log rs H; simpl in H.
  - cbv [mret M_ret ret] in H. injection H as _ <-. constructor.
  - inv_bind H r Hr. inv_bind H rs' Hrs'.
    cbv [mret M_ret ret] in H. injection H as _ <-. constructor; eauto.
Qed.

Lemma fill_row_spec to_float (row : list Q) (j : nat) (fields : list string) log row' :
  fill_row to_float row j fields = (log, inr row') ->
  length row' = length row /\
  (forall k, (k < j \/ j + length fields <= k)%nat -> row' !! k = row !! k) /\
  (forall k f, fields !! k = Some f ->
     (j + k < length row)%nat /\ exists q, to_float f = Some q /\ row' !! (j + k)%nat = Some q).
Proof.
  revert row j log. induction fields as [|f fields IH]; intros row j log H; simpl in H.
  - cbv [mret M_ret ret] in H. injection H as _ <-.
    split_and!; [done | done | intros k f Hk; by rewrite lookup_nil in Hk].
  - case_bool_decide as Hj; [| discriminate].
    inv_bind H c Hc. unfold py_float, of_option in Hc.
    destruct (to_float f) as [q |] eqn:Ef; [| discriminate].
    cbv [ret] in Hc. injection Hc as _ <-.
    destruct (IH _ _ _ H) as (Hlen & Hsame & Hfields).
    rewrite length_insert in Hlen, Hfields.
    split_and!.
    + done.
    + intros k Hk. rewrite Hsame by (simpl in Hk; lia).
      apply list_lookup_insert_ne. simpl in Hk. lia.
    + intros [|k] f' Hk; simpl in Hk.
      * injection Hk as <-. split; [lia |]. exists q. split; [done |].
        rewrite Nat.add_0_r, Hsame by lia. by apply list_lookup_insert_eq.
      * destruct (Hfields k f' Hk) as [Hlt Hq]. split; [lia |].
        by replace (j + S k)%nat with (S j + k)%nat by lia.
Qed.

Lemma lookup_map {A B} (f : A -> B) (l : list A) (i : nat) :
  map f l !! i = f <$> l !! i.
Proof. revert i. induction l as [|x l IH]; intros [|i]; simpl; auto. Qed.

Lemma parse_row_layout to_float n line lg tv row Tv :
  parse_row to_float n line = (lg, inr (tv, row, Tv)) ->
  data_line_layout to_float n line tv row Tv.
Proof.
  intros H. unfold parse_row in H. unfold data_line_layout.
  set (fields := py_split (ascii_of_nat 9) line) in *.
  set (concs := drop 1 (take (length fields - 2) fields)) in *.
  inv_bind H f0 Hf0. inv_bind H tstr Htstr. inv_bind H tv' Htv.
  inv_bind H Tstr HTstr. inv_bind H Tv' HTv. inv_bind H row' Hrow.
  cbv [mret M_ret ret] in H. injection H as _ <- <- <-.
  unfold py_get, of_option, py_float in *.
  destruct (py_index fields 0) eqn:E0; [| discriminate]. injection Hf0 as _ <-.
  destruct (py_index (py_split " "%char s) 1) eqn:E1; [| discriminate].
  injection Htstr as _ <-.
  destruct (to_float s0) eqn:E2; [| discriminate]. injection Htv as _ <-.
  destruct (py_index fields (-2)) eqn:E3; [| discriminate]. injection HTstr as _ <-.
  destruct (to_float s1) eqn:E4; [| discriminate]. injection HTv as _ <-.
  destruct (fill_row_spec _ _ _ _ _ _ Hrow) as (Hlen & Hsame & Hfields).
  rewrite length_replicate in Hlen, Hfields.
  split_and!; eauto.
  - destruct concs as [|f concs'] eqn:Ec; simpl; [lia |].
    destruct (lookup_lt_is_Some_2 (f :: concs') (length concs')) as [g Hg].
    { simpl. lia. }
    destruct (Hfields (length concs') g Hg) as [Hlt _]. lia.
  - intros k f Hk. destruct (Hfields k f Hk) as (_ & qk & Hq & Hr). simpl in Hr. by rewrite Hq, Hr.
  - intros k Hk. rewrite Hsame by lia. apply lookup_replicate_2. lia.
Qed.

(** C5 (as amended).  A segment file read by [read_results_files] has at
    least 7 lines and yields [total lines - 7] rows, from the lines
    [1 .. total - 7]; on each of them the time is the second space-separated
    token of field 0, the temperature is the field before the last (field
    [-2]), the last field is unused, and the concentrations are the fields
    between the time field and the last two. *)
Theorem read_results_files_layout to_float F filename sl log t y T :
  read_results_files to_float F filename sl = (log, inr (t, y, T)) ->
  exists f,
    fs_files F !! filename = Some f /\
    let lines := py_readlines (file_text f) in
    (7 <= length lines)%nat /\ length t = (length lines - 7)%nat /\
    length y = length t /\ length T = length t /\
    forall i, (i < length t)%nat ->
      exists line tv row Tv,
        lines !! S i = Some line /\ t !! i = Some tv /\ y !! i = Some row /\
        T !! i = Some Tv /\ data_line_layout to_float (length sl) line tv row Tv.
Proof.
  intros H. unfold read_results_files in H.
  inv_bind H f Hf. apply py_open_inr in Hf. exists f. split; [done |].
  set (lines := py_readlines (file_text f)) in *. simpl.
  case_bool_decide as Hlt; [discriminate |].
  inv_bind H f' Hf'. inv_bind H rows Hrows.
  cbv [mret M_ret ret] in H. injection H as _ <- <- <-.
  apply mapM_inr in Hrows.
  pose proof (Forall2_length _ _ _ Hrows) as Hlen.
  rewrite length_take, length_drop in Hlen.
  rewrite !length_map. split_and!; [lia | lia | done | done |].
  intros i Hi.
  destruct (lookup_lt_is_Some_2 rows i) as [[[tv row] Tv] Hr]; [lia |].
  destruct (Forall2_lookup_r _ _ _ i _ Hrows Hr) as (line & Hline & lg & Hp).
  rewrite lookup_take, lookup_drop in Hline. case_decide; [| lia].
  exists line, tv, row, Tv. split_and!.
  - done.
  - by rewrite lookup_map, Hr.
  - by rewrite lookup_map, Hr.
  - by rewrite lookup_map, Hr.
  - eapply parse_row_layout; eauto.
Qed.

(** C5 as stated fails: on the data line [r 0 | 3 | 4 | 300 | 0] the
    temperature read is 300, the field before the last, not the last field,
    which holds 0. *)
Lemma read_results_files_temperature_counterexample :
  ~ (forall t y T,
       snd (read_results_files sample_float sample_fs_ab "run/results_dir/ddasac_results_1.out"
              ["A"; "B"]%string) = inr (t, y, T) ->
       T !! 0%nat
       = (f ← py_index (py_split (ascii_of_nat 9)
                          (sample_line ["r 0"; "3"; "4"; "300"; "0"])) (-1);
          sample_float f)).
Proof.
  intros H. specialize (H [0; 5] [[3; 4]; [1; 2]] [300; 310]).
  vm_compute in H. specialize (H eq_refl). discriminate.
Qed.

(* ------------------------------------------------------------------ *)
(** ** Sums and normalisation *)

Lemma foldl_Qplus_acc (a : Q) (l : list Q) : foldl Qplus a l == a + foldl Qplus 0 l.
Proof.
  revert a. induction l as [|x l IH]; intros a; simpl.
  - ring.
  - rewrite (IH (a + x)), (IH (0 + x)). ring.
Qed.

Lemma np_sum_cons (x : Q) (l : list Q) : np_sum (x :: l) == x + np_sum l.
Proof. unfold np_sum. simpl. rewrite foldl_Qplus_acc. ring. Qed.

Lemma np_sum_div (s : Q) (l : list Q) :
  ~ s == 0 -> np_sum (map (fun x => x / s) l) == np_sum l / s.
Proof.
  intros Hs. induction l as [|x l IH].
  - unfold np_sum. simpl. field. done.
  - simpl map. rewrite !np_sum_cons, IH. field. done.
Qed.

Lemma np_normalize_sums_to_one (v : list Q) :
  ~ np_sum v == 0 -> sums_to_one (np_normalize v).
Proof.
  intros Hs. exists (map (fun x => x / np_sum v) v). split.
  - unfold np_normalize, fdiv. rewrite map_map.
    apply map_ext. intros x.
    destruct (Qeq_bool (np_sum v) 0) eqn:E; [| done].
    apply Qeq_bool_eq in E. contradiction.
  - rewrite np_sum_div by done. field. done.
Qed.

(* ------------------------------------------------------------------ *)
(** ** C6: the percentages of [tar_elem_analysis] *)

(** C6. The mole percentages of [tar_elem_analysis] are [ea0] and [ea]
    divided by their own sums, the weight percentages are [ea0] and [ea]
    scaled by the atomic weights 12.011, 1.0079, 15.999 and then divided by
    their sums; each of the four vectors sums to 1 when the sum it is divided
    by is nonzero. *)
Theorem tar_elem_analysis_percentages MW si y t tc log r :
  tar_elem_analysis MW si y t tc = (log, inr r) ->
  ea0_molpercent r = np_normalize (ea0 r) /\ ea_molpercent r = np_normalize (ea r) /\
  ea0_wtpercent r = np_normalize (zip_with Qmult (ea0 r) [12.011; 1.0079; 15.999]) /\
  ea_wtpercent r = np_normalize (zip_with Qmult (ea r) [12.011; 1.0079; 15.999]) /\
  (~ np_sum (ea0 r) == 0 -> sums_to_one (ea0_molpercent r)) /\
  (~ np_sum (ea r) == 0 -> sums_to_one (ea_molpercent r)) /\
  (~ np_sum (zip_with Qmult (ea0 r) [12.011; 1.0079; 15.999]) == 0 ->
   sums_to_one (ea0_wtpercent r)) /\
  (~ np_sum (zip_with Qmult (ea r) [12.011; 1.0079; 15.999]) == 0 ->
   sums_to_one (ea_wtpercent r)).
Proof.
  intros H. unfold tar_elem_analysis in H.
  inv_bind H e0 He0. inv_bind H ti Hti. destruct ti as [ti ch].
  inv_bind H e He.
  cbv [mret M_ret ret] in H. injection H as _ <-. simpl.
  split_and!; try reflexivity; apply np_normalize_sums_to_one.
Qed.

(* ------------------------------------------------------------------ *)
(** ** C10: [C_fun_gen(['initial'], ...)] does not depend on the time *)

Lemma cfun_step_initial_time si y C t1 t2 sp :
  cfun_step ["initial"]%string si y (C, t1) sp = cfun_step ["initial"]%string si y (C, t2) sp.
Proof. reflexivity. Qed.

(** C10. With [fractions = ['initial']], [C_fun_gen] gives the same result
    (value, exception and effects) for any two time arguments. *)
Theorem C_fun_gen_initial_time_independent MW si y t1 t2 :
  C_fun_gen MW ["initial"]%string si y t1 = C_fun_gen MW ["initial"]%string si y t2.
Proof.
  unfold C_fun_gen. destruct MW as [|sp MW]; [reflexivity |].
  cbn [foldlM]. rewrite (cfun_step_initial_time si y _ t1 t2 sp). reflexivity.
Qed.

(* ------------------------------------------------------------------ *)
(** ** C8: an empty tag filter gives NaN, not an exception *)

Lemma foldlM_ea_step_no_tar MW si y ti acc :
  Forall (fun sp => mw_phase sp.2 ∉ tar_phases) MW ->
  foldlM (ea_step si y ti) acc MW = ([], inr acc).
Proof.
  intros Hall. induction Hall as [|sp MW Hsp _ IH]; [reflexivity |].
  cbn [foldlM].
  assert (Hs : ea_step si y ti acc sp = mret acc).
  { unfold ea_step. by rewrite bool_decide_false. }
  rewrite Hs. cbv [mbind M_bind bind mret M_ret ret]. rewrite IH. reflexivity.
Qed.

Lemma foldlM_cfun_step_no_match MW fractions si y C time :
  fractions <> ["initial"]%string ->
  Forall (fun sp => mw_phase sp.2 ∉ fractions) MW ->
  foldlM (cfun_step fractions si y) (C, time) MW = ([], inr (C, time)).
Proof.
  intros Hini Hall. induction Hall as [|sp MW Hsp _ IH]; [reflexivity |].
  cbn [foldlM].
  assert (Hs : cfun_step fractions si y (C, time) sp = mret (C, time)).
  { unfold cfun_step. rewrite bool_decide_false by done. by rewrite bool_decide_false. }
  rewrite Hs. cbv [mbind M_bind bind mret M_ret ret]. rewrite IH. reflexivity.
Qed.

Lemma bind_ret {A B} (a : A) (f : A -> M B) : (ret a ≫= f) = f a.
Proof. cbv [mbind M_bind bind ret]. destruct (f a). reflexivity. Qed.

Lemma bind_mret {A B} (a : A) (f : A -> M B) : (mret a ≫= f) = f a.
Proof. apply bind_ret. Qed.

Lemma bind_ok {A B} (m : M A) (f : A -> M B) l a :
  m = (l, inr a) -> (exists l2 b, f a = (l2, inr b)) -> exists l' b, (m ≫= f) = (l', inr b).
Proof.
  intros -> (l2 & b & E). cbv [mbind M_bind bind]. rewrite E. eauto.
Qed.

(** The loop over [MW] computing [ea0] succeeds when every species of [MW]
    has a column of the first row of [y] and three elemental contributions. *)
Lemma foldlM_ea0_step_ok MW si y row0 acc :
  y !! 0%nat = Some row0 ->
  Forall (fun sp => exists i, si !! sp.1 = Some i /\ (i < length row0)%nat /\
                              (3 <= length (mw_elem sp.2))%nat) MW ->
  exists log acc', foldlM (ea0_step si y) acc MW = (log, inr acc').
Proof.
  intros Hy Hall. revert acc.
  induction Hall as [|[s e] MW (i & Hi & Hlt & Hel) _ IH]; intros acc.
  { eexists _, _. reflexivity. }
  simpl in Hi, Hel.
  destruct (lookup_lt_is_Some_2 row0 i Hlt) as [c Hc].
  assert (Hget : np_get2 y 0 i = ret c).
  { unfold np_get2, py_get, py_index. simpl. change (Z.to_nat 0) with 0%nat. rewrite Hy.
    cbv [of_option mbind M_bind bind ret].
    replace (Z.of_nat i <? 0)%Z with false by (symmetry; apply Z.ltb_ge; lia).
    rewrite Nat2Z.id, Hc. reflexivity. }
  assert (Hstep : exists l a', ea0_step si y acc (s, e) = (l, inr a')).
  { unfold ea0_step. simpl. unfold dict_get, of_option. rewrite Hi, bind_ret, Hget, bind_ret.
    destruct (Qeq_bool c 0); [eexists _, _; reflexivity |].
    destruct (mw_elem e) as [|e0 [|e1 [|e2 el]]] eqn:Ee; simpl in Hel; try lia.
    unfold elem_contrib, py_get, py_index. rewrite Ee. eexists _, _. reflexivity. }
  destruct Hstep as (l & a' & Hstep).
  cbn [foldlM]. eapply bind_ok; [exact Hstep | apply IH].
Qed.

(** C8. When no species of [MW] carries a tag of the filter, neither
    function raises: [C_fun_gen] (with a list of tags) returns seven NaN, and
    [tar_elem_analysis] (on inputs its [t = 0] loop can read, and with a
    time index [i], if any, for which [t[i]] does not raise [IndexError],
    that is [-len(t) <= i < len(t)]) returns the all-zero vector [ea] with NaN mole and weight percentages. *)
Theorem no_matching_species_gives_nan MW si y t tc fractions time :
  (fractions <> ["initial"]%string ->
   Forall (fun sp => mw_phase sp.2 ∉ fractions) MW ->
   C_fun_gen MW fractions si y time = ([], inr (replicate 7 NaN))) /\
  (Forall (fun sp => mw_phase sp.2 ∉ tar_phases) MW ->
   (exists row0, y !! 0%nat = Some row0 /\
      Forall (fun sp => exists i, si !! sp.1 = Some i /\ (i < length row0)%nat /\
                                  (3 <= length (mw_elem sp.2))%nat) MW) ->
   match tc with TEnd => True | TIndex i => is_Some (py_index t i) end ->
   exists log r, tar_elem_analysis MW si y t tc = (log, inr r) /\
     ea r = [0; 0; 0] /\ ea_molpercent r = [NaN; NaN; NaN] /\
     ea_wtpercent r = [NaN; NaN; NaN]).
Proof.
  split.
  - intros Hini Hall. unfold C_fun_gen.
    cbv [mbind M_bind bind]. rewrite foldlM_cfun_step_no_match by done. reflexivity.
  - intros Hall (row0 & Hy & Hwf) Htc. unfold tar_elem_analysis.
    destruct (foldlM_ea0_step_ok MW si y row0 [0; 0; 0] Hy Hwf) as (log & e0 & E0).
    cbv [mbind M_bind bind]. rewrite E0.
    destruct tc as [| i].
    + cbv [mret M_ret ret]. rewrite foldlM_ea_step_no_tar by done.
      eexists _, _. split; [reflexivity |]. split_and!; reflexivity.
    + destruct Htc as [ti Hti]. unfold py_get, of_option. rewrite Hti.
      cbv [mret M_ret ret]. rewrite foldlM_ea_step_no_tar by done.
      eexists _, _. split; [reflexivity |]. split_and!; reflexivity.
Qed.

(* ------------------------------------------------------------------ *)
(** ** C9: the tar moisture content of [generate_report] *)

Lemma fdiv_proper (a a' b b' : Q) :
  a == a' -> b == b' -> fval_eq (fdiv a b) (fdiv a' b').
Proof.
  intros Ha Hb. unfold fdiv.
  assert (Eb : Qeq_bool b 0 = Qeq_bool b' 0).
  { apply eq_true_iff_eq. rewrite !Qeq_bool_iff, Hb. reflexivity. }
  assert (Ea : Qeq_bool a 0 = Qeq_bool a' 0).
  { apply eq_true_iff_eq. rewrite !Qeq_bool_iff, Ha. reflexivity. }
  assert (El : Qle_bool 0 a = Qle_bool 0 a').
  { apply eq_true_iff_eq. rewrite !Qle_bool_iff, Ha. reflexivity. }
  rewrite Eb, Ea, El.
  destruct (Qeq_bool b' 0); [destruct (Qeq_bool a' 0); [|destruct (Qle_bool 0 a')] |];
    simpl; try done.
  rewrite Ha, Hb. reflexivity.
Qed.

Lemma of_option_inr {A} (e : exn) (o : option A) l a :
  of_option e o = (l, inr a) -> o = Some a.
Proof. destruct o; cbv; congruence. Qed.

Lemma np_get2_inr (y : list (list Q)) (i : Z) (j : nat) l x :
  np_get2 y i j = (l, inr x) -> exists row, py_index y i = Some row /\ row !! j = Some x.
Proof.
  unfold np_get2. intros H. inv_bind H row Hm. unfold py_get in *.
  apply of_option_inr in Hm, H. unfold py_index in H.
  rewrite (proj2 (Z.ltb_ge _ _)) in H by lia. rewrite Nat2Z.id in H. eauto.
Qed.

Lemma phase_mass_cons phases sp MW si row :
  phase_mass phases (sp :: MW) si row ==
  (if bool_decide (mw_phase sp.2 ∈ phases)
   then default 0 (si !! sp.1 ≫= fun i => row !! i) else 0) + phase_mass phases MW si row.
Proof. unfold phase_mass. simpl map. apply np_sum_cons. Qed.

(** The loop accumulating [mtot] keeps a one-element vector holding the
    tar mass at the row [t_index]. *)
Lemma foldlM_mtot_step MW si m ti row a log mt :
  py_index m ti = Some row ->
  foldlM (mtot_step si m ti) [a] MW = (log, inr mt) ->
  exists b, mt = [b] /\ b == a + phase_mass tar_phases MW si row.
Proof.
  intros Hrow. revert a log. induction MW as [|sp MW IH]; intros a log H.
  - cbv [foldlM mret M_ret ret] in H. injection H as _ <-.
    exists a. split; [done |]. unfold phase_mass, np_sum. simpl. ring.
  - cbn [foldlM] in H. inv_bind H a' Hm. unfold mtot_step in Hm.
    case_bool_decide as Hp.
    + inv_bind Hm i Hi. inv_bind Hm xv Hx. cbv [mret M_ret ret] in Hm. injection Hm as _ <-.
      apply of_option_inr in Hi. apply np_get2_inr in Hx as (row' & Hrow' & Hx).
      rewrite Hrow in Hrow'. injection Hrow' as <-.
      destruct (IH _ _ H) as (b & -> & Hb). exists b. split; [done |].
      rewrite Hb, phase_mass_cons, bool_decide_true by done.
      rewrite Hi. simpl. rewrite Hx. simpl. ring.
    + cbv [mret M_ret ret] in Hm. injection Hm as _ <-.
      destruct (IH _ _ H) as (b & -> & Hb). exists b. split; [done |].
      rewrite Hb, phase_mass_cons, bool_decide_false by done. ring.
Qed.

Lemma tar_elem_analysis_end_index MW si y t log r :
  tar_elem_analysis MW si y t TEnd = (log, inr r) ->
  t_index r = (Z.of_nat (length t) - 1)%Z.
Proof.
  unfold tar_elem_analysis. intros H.
  inv_bind H e0 He0. inv_bind H p Hp. cbv [mret M_ret ret] in Hp. injection Hp as _ <-.
  inv_bind H e He. cbv [mret M_ret ret] in H. injection H as _ <-. reflexivity.
Qed.

(** C9. When [generate_report] gets to print the moisture content, the value
    printed is the mass fraction of water at the last time row of [m] divided
    by the sum, over the species of [MW] tagged [t], [lt] or [H2O], of their
    mass fractions at that same row. *)
Theorem report_moisture_tar_fraction MW si y m t log v :
  report_moisture MW si y m t = (log, inr v) ->
  exists mrow iw w,
    py_index m (Z.of_nat (length t) - 1) = Some mrow /\
    si !! "H2O"%string = Some iw /\ mrow !! iw = Some w /\
    fval_eq v (fdiv w (phase_mass tar_phases MW si mrow)).
Proof.
  unfold report_moisture. intros H.
  inv_bind H res Hres. apply tar_elem_analysis_end_index in Hres. cbv zeta in H.
  inv_bind H mt Hmt. inv_bind H iw Hiw. inv_bind H w Hw.
  apply of_option_inr in Hiw. apply np_get2_inr in Hw as (mrow & Hrow & Hw).
  rewrite Hres in Hrow, Hmt.
  destruct (foldlM_mtot_step _ _ _ _ _ _ _ _ Hrow Hmt) as (b & -> & Hb).
  unfold py_get, of_option in H. simpl in H. injection H as _ <-.
  exists mrow, iw, w. split_and!; try done.
  apply fdiv_proper; [reflexivity |]. rewrite Hb. ring.
Qed.

(* ------------------------------------------------------------------ *)
(** ** C7: the row sums of [lump_species] *)

Lemma py_index_nat {A} (l : list A) (i : nat) : py_index l (Z.of_nat i) = l !! i.
Proof.
  unfold py_index. rewrite (proj2 (Z.ltb_ge _ _)) by lia. by rewrite Nat2Z.id.
Qed.

Lemma np_column_inr (m : list (list Q)) (i : nat) l col :
  np_column m i = (l, inr col) ->
  length col = length m /\
  forall r mrow, m !! r = Some mrow -> exists xv, mrow !! i = Some xv /\ col !! r = Some xv.
Proof.
  unfold np_column. intros H. apply mapM_inr in H. split.
  - symmetry. by eapply Forall2_length.
  - intros r mrow Hr. destruct (Forall2_lookup_l _ _ _ _ _ H Hr) as (xv & Hx & lg & Hg).
    unfold py_get in Hg. apply of_option_inr in Hg. rewrite py_index_nat in Hg. eauto.
Qed.

Lemma np_sum_alter (row : list Q) (k : nat) (v xv : Q) :
  row !! k = Some v -> np_sum (alter (fun a => a + xv) k row) == np_sum row + xv.
Proof.
  revert k. induction row as [|a row IH]; intros [|k] Hk; try discriminate; simpl.
  - rewrite !np_sum_cons. ring.
  - rewrite !np_sum_cons, (IH k Hk). ring.
Qed.

Lemma add_species_column_inr si m s L k l L1 :
  add_species_column si m s L k = (l, inr L1) ->
  length L = length m -> rows_of_width 8 L -> (k < 8)%nat ->
  exists i, si !! s = Some i /\ length L1 = length m /\ rows_of_width 8 L1 /\
    forall r mrow lrow, m !! r = Some mrow -> L !! r = Some lrow ->
      exists xv lrow1, mrow !! i = Some xv /\ L1 !! r = Some lrow1 /\
        np_sum lrow1 == np_sum lrow + xv.
Proof.
  unfold add_species_column. intros H HL Hw Hk.
  inv_bind H i Hi. inv_bind H col Hcol. cbv [mret M_ret ret] in H. injection H as _ <-.
  apply of_option_inr in Hi. apply np_column_inr in Hcol as [Hlc Hc].
  exists i. unfold add_to_column. split_and!.
  - done.
  - rewrite length_zip_with. lia.
  - intros r lrow Hr. rewrite lookup_zip_with in Hr.
    destruct (L !! r) as [row |] eqn:Er; simpl in Hr; [| discriminate].
    destruct (col !! r); simpl in Hr; [| discriminate].
    injection Hr as <-. rewrite length_alter. eauto.
  - intros r mrow lrow Hm Hl. destruct (Hc r mrow Hm) as (xv & Hx & Hcx).
    exists xv, (alter (fun v => v + xv) k lrow). split_and!.
    + done.
    + rewrite lookup_zip_with, Hl, Hcx. reflexivity.
    + destruct (lookup_lt_is_Some_2 lrow k) as [v Hv].
      { rewrite (Hw r lrow Hl). done. }
      exact (np_sum_alter _ _ _ _ Hv).
Qed.

Lemma add_species_column_step si m s e L k l L1 :
  add_species_column si m s L k = (l, inr L1) -> (k < 8)%nat ->
  mw_phase e ∈ lump_phases ->
  length L = length m -> rows_of_width 8 L ->
  length L1 = length m /\ rows_of_width 8 L1 /\
  forall r mrow lrow, m !! r = Some mrow -> L !! r = Some lrow ->
    exists lrow1, L1 !! r = Some lrow1 /\
      np_sum lrow1 == np_sum lrow +
        (if bool_decide (mw_phase e ∈ lump_phases)
         then default 0 (si !! s ≫= fun i => mrow !! i) else 0).
Proof.
  intros H Hk Hp HL Hw.
  destruct (add_species_column_inr _ _ _ _ _ _ _ H HL Hw Hk) as (i & Hi & HL1 & Hw1 & Hs).
  split_and!; try done.
  intros r mrow lrow Hm Hl. destruct (Hs _ _ _ Hm Hl) as (xv & lrow1 & Hx & Hl1 & Hsum).
  exists lrow1. split; [done |].
  rewrite bool_decide_true by done. rewrite Hi. simpl. rewrite Hx. simpl. exact Hsum.
Qed.

Ltac phase_in E := rewrite E; apply list_elem_of_In; simpl; tauto.

Lemma lump_step_inr si m L pf s e l L1 pf1 :
  lump_step si m (L, pf) (s, e) = (l, inr (L1, pf1)) ->
  length L = length m -> rows_of_width 8 L ->
  length L1 = length m /\ rows_of_width 8 L1 /\
  forall r mrow lrow, m !! r = Some mrow -> L !! r = Some lrow ->
    exists lrow1, L1 !! r = Some lrow1 /\
      np_sum lrow1 == np_sum lrow +
        (if bool_decide (mw_phase e ∈ lump_phases)
         then default 0 (si !! s ≫= fun i => mrow !! i) else 0).
Proof.
  intros H HL Hw. unfold lump_step in H. cbv beta iota zeta in H.
  destruct (String.eqb_spec (mw_phase e) "s") as [E|E].
  { inv_bind H L2 Ha. cbv [mret M_ret ret] in H. injection H as _ <- _.
    eapply add_species_column_step; [eassumption | lia | phase_in E | eassumption | eassumption]. }
  destruct (String.eqb_spec (mw_phase e) "t") as [E'|E'].
  { inv_bind H L2 Ha.
    assert (L1 = L2) as ->.
    { destruct (String.eqb (mw_family e) "p"), (String.eqb (mw_family e) "s");
        try (inv_bind H p Hp); cbv [mret M_ret ret] in H; congruence. }
    eapply add_species_column_step; [eassumption | lia | phase_in E' | eassumption | eassumption]. }
  destruct (String.eqb_spec (mw_phase e) "lt") as [E2|E2].
  { inv_bind H L2 Ha. cbv [mret M_ret ret] in H. injection H as _ <- _.
    eapply add_species_column_step; [eassumption | lia | phase_in E2 | eassumption | eassumption]. }
  destruct (String.eqb_spec (mw_phase e) "g") as [E3|E3].
  { inv_bind H L2 Ha. cbv [mret M_ret ret] in H. injection H as _ <- _.
    eapply add_species_column_step; [eassumption | lia | phase_in E3 | eassumption | eassumption]. }
  destruct (String.eqb_spec (mw_phase e) "CO") as [E4|E4].
  { inv_bind H L2 Ha. cbv [mret M_ret ret] in H. injection H as _ <- _.
    eapply add_species_column_step; [eassumption | lia | phase_in E4 | eassumption | eassumption]. }
  destruct (String.eqb_spec (mw_phase e) "CO2") as [E5|E5].
  { inv_bind H L2 Ha. cbv [mret M_ret ret] in H. injection H as _ <- _.
    eapply add_species_column_step; [eassumption | lia | phase_in E5 | eassumption | eassumption]. }
  destruct (String.eqb_spec (mw_phase e) "H2O") as [E6|E6].
  { inv_bind H L2 Ha. cbv [mret M_ret ret] in H. injection H as _ <- _.
    eapply add_species_column_step; [eassumption | lia | phase_in E6 | eassumption | eassumption]. }
  destruct (String.eqb_spec (mw_phase e) "char") as [E7|E7].
  { inv_bind H L2 Ha. cbv [mret M_ret ret] in H. injection H as _ <- _.
    eapply add_species_column_step; [eassumption | lia | phase_in E7 | eassumption | eassumption]. }
  inv_bind H u Hu. cbv [mret M_ret ret] in H. injection H as _ <- _.
  split_and!; try done.
  intros r mrow lrow Hm Hl. exists lrow. split; [done |].
  rewrite bool_decide_false; [ring |].
  rewrite list_elem_of_In. simpl. intuition congruence.
Qed.

(** The loop of [lump_species] adds to every row of [lumped] the mass of the
    species of [MW] with one of the eight phase tags. *)
Lemma foldlM_lump_step MW si m L pf log L' pf' :
  foldlM (lump_step si m) (L, pf) MW = (log, inr (L', pf')) ->
  length L = length m -> rows_of_width 8 L ->
  length L' = length m /\ rows_of_width 8 L' /\
  forall r mrow lrow, m !! r = Some mrow -> L !! r = Some lrow ->
    exists lrow', L' !! r = Some lrow' /\
      np_sum lrow' == np_sum lrow + phase_mass lump_phases MW si mrow.
Proof.
  revert L pf log. induction MW as [|[s e] MW IH]; intros L pf log H HL Hw.
  - cbv [foldlM mret M_ret ret] in H. injection H as <- <-.
    split_and!; try done. intros r mrow lrow _ Hl. exists lrow. split; [done |].
    unfold phase_mass, np_sum. simpl. ring.
  - cbn [foldlM] in H. apply bind_inr in H as (l1 & [L1 pf1] & l2 & Hs & H).
    destruct (lump_step_inr _ _ _ _ _ _ _ _ _ Hs HL Hw) as (HL1 & Hw1 & Hs1).
    destruct (IH _ _ _ H HL1 Hw1) as (HL' & Hw' & Hs').
    split_and!; try done.
    intros r mrow lrow Hm Hl. destruct (Hs1 _ _ _ Hm Hl) as (lrow1 & Hl1 & E1).
    destruct (Hs' _ _ _ Hm Hl1) as (lrow' & Hl' & E'). exists lrow'. split; [done |].
    rewrite E', E1, phase_mass_cons. cbn [fst snd]. ring.
Qed.

Lemma np_sum_perm (l1 l2 : list Q) : l1 ≡ₚ l2 -> np_sum l1 == np_sum l2.
Proof.
  induction 1 as [| xv l1 l2 _ IH | xv y l | l1 l2 l3 _ IH1 _ IH2].
  - reflexivity.
  - rewrite !np_sum_cons, IH. reflexivity.
  - rewrite !np_sum_cons. ring.
  - rewrite IH1. exact IH2.
Qed.

Lemma omap_cons {A B} (f : A -> option B) (a : A) (l : list A) :
  omap f (a :: l) = match f a with Some b => b :: omap f l | None => omap f l end.
Proof. reflexivity. Qed.

Lemma phase_mass_filter phases MW si row :
  phase_mass phases MW si row ==
  np_sum (map (fun i => default 0 (row !! i))
              (omap (fun sp => si !! sp.1) (filter (fun sp => mw_phase sp.2 ∈ phases) MW))).
Proof.
  induction MW as [|sp MW IH]; [reflexivity |].
  rewrite phase_mass_cons, IH, filter_cons. case_bool_decide as Hp.
  - rewrite decide_True by done. rewrite omap_cons.
    destruct (si !! sp.1) as [i |] eqn:Ei; simpl default.
    + simpl map. rewrite np_sum_cons. ring.
    + ring.
  - rewrite decide_False by done. ring.
Qed.

Lemma map_default_lookup_seq (row : list Q) :
  map (fun i => default 0 (row !! i)) (seq 0 (length row)) = row.
Proof.
  apply list_eq. intros i. rewrite lookup_map.
  destruct (decide (i < length row)%nat) as [Hi | Hi].
  - rewrite lookup_seq_lt by done. simpl.
    destruct (lookup_lt_is_Some_2 row i Hi) as [xv Hx]. rewrite Hx. reflexivity.
  - rewrite lookup_seq_ge by lia. rewrite lookup_ge_None_2 by lia. reflexivity.
Qed.

(** C7 (amended). Every row of [lumped] has eight columns and sums to the
    mass of the species of [MW] tagged with one of the eight phases, read
    from the same row of [m]; species with another tag are left out.  When
    the species of [MW] with a recognized tag are exactly the columns of [m],
    each once, a row of [m] summing to 1 gives a row of [lumped] summing
    to 1. *)
Theorem lump_species_row_sums MW si m log lumped pf ml :
  lump_species MW si m = (log, inr (lumped, pf, ml)) ->
  length lumped = length m /\
  forall r mrow, m !! r = Some mrow ->
    exists lrow, lumped !! r = Some lrow /\ length lrow = 8%nat /\
      np_sum lrow == phase_mass lump_phases MW si mrow /\
      (omap (fun sp => si !! sp.1) (filter (fun sp => mw_phase sp.2 ∈ lump_phases) MW)
         ≡ₚ seq 0 (length mrow) ->
       np_sum mrow == 1 -> np_sum lrow == 1).
Proof.
  unfold lump_species. intros H.
  apply bind_inr in H as (l1 & [L pf1] & l2 & Hf & H).
  cbv beta iota delta [mret M_ret ret] in H. injection H as _ H1 H2 H3. subst lumped.
  assert (HL0 : length (replicate (length m) (replicate 8 (0 : Q))) = length m)
    by apply length_replicate.
  assert (Hw0 : rows_of_width 8 (replicate (length m) (replicate 8 (0 : Q)))).
  { intros r row Hr. apply lookup_replicate in Hr as [-> _]. reflexivity. }
  destruct (foldlM_lump_step _ _ _ _ _ _ _ _ Hf HL0 Hw0) as (HL & Hw & Hs).
  split; [done |].
  intros r mrow Hm.
  assert (Hr : (r < length m)%nat) by (eapply lookup_lt_Some; eauto).
  destruct (Hs r mrow _ Hm (lookup_replicate_2 _ _ _ Hr)) as (lrow & Hl & E).
  exists lrow. split_and!.
  - done.
  - exact (Hw r lrow Hl).
  - rewrite E. unfold np_sum at 1. simpl. ring.
  - intros Hperm Hsum. rewrite E, phase_mass_filter.
    rewrite (np_sum_perm _ _ (Permutation_map _ Hperm)), map_default_lookup_seq, Hsum.
    unfold np_sum at 1. simpl. ring.
Qed.

(** C7. A species whose phase tag is none of the eight phases has its mass
    left out of [lumped]: with the table [untagged_MW] a row of [m] summing
    to 1 gives a row of [lumped] summing to 1/2. *)
Lemma lump_species_untagged_counterexample :
  ~ (forall log lumped pf ml r lrow mrow,
       lump_species untagged_MW untagged_si untagged_m = (log, inr (lumped, pf, ml)) ->
       lumped !! r = Some lrow -> untagged_m !! r = Some mrow ->
       np_sum mrow == 1 -> np_sum lrow == 1).
Proof.
  intros Hclaim.
  destruct (lump_species untagged_MW untagged_si untagged_m)
    as [log [e | [[lumped pf] ml]]] eqn:E.
  { vm_compute in E. discriminate. }
  assert (E' := E). vm_compute in E'. injection E' as _ Hl _ _. subst lumped.
  assert (Hs : np_sum [1/2; 1/2] == 1) by (vm_compute; reflexivity).
  specialize (Hclaim log _ pf ml 0%nat _ _ eq_refl eq_refl eq_refl Hs).
  vm_compute in Hclaim. discriminate.
Qed.

(* ------------------------------------------------------------------ *)
(** ** Instances of the properties on the sample runs *)

Lemma append_segment_times_witness :
  exists t_end t,
    py_index [0; 5] (-1) = Some t_end /\
    append_segment ([[3; 4]; [1; 2]], [0; 5], [300; 310]) ([0; 2], [[1; 2]; [0; 3]], [310; 320])
      = ([], inr ([[3; 4]; [1; 2]] ++ drop 1 [[1; 2]; [0; 3]], t,
                  [300; 310] ++ drop 1 [310; 320])) /\
    t = [0; 5] ++ map (fun x => t_end + x) (drop 1 [0; 2]) /\
    length t = (length [0; 5] + length [0; 2] - 1)%nat /\
    (Sorted Qle [0; 5] -> Sorted Qle [0; 2] ->
     (forall x0, [0; 2] !! 0%nat = Some x0 -> 0 <= x0) -> Sorted Qle t).
Proof. apply append_segment_times; discriminate. Defined.

Lemma load_results_speciesindices_enum_order_witness :
  exists modelc,
    fs_files sample_fs_ab !! "run/model.c"%string = Some modelc /\
    let l := species_from_modelc (file_text modelc) in
    r_specieslist sample_result = merge_sort String.le l /\
    Sorted String.le (r_specieslist sample_result) /\ r_specieslist sample_result ≡ₚ l /\
    (NoDup l -> forall i s, l !! i = Some s -> r_speciesindices sample_result !! s = Some i).
Proof.
  exact (load_results_speciesindices_enum_order sample_float sample_fs_ab "run" _ sample_result
           sample_load).
Defined.

Lemma load_results_index_roundtrip_witness :
  exists i, r_speciesindices sample_result !! "A"%string = Some i /\
            r_indices_to_species sample_result !! i = Some "A"%string.
Proof.
  apply (load_results_index_roundtrip sample_float sample_fs_ab "run" _ sample_result "A"
           sample_load).
  apply list_elem_of_In. vm_compute. left. reflexivity.
Defined.

Lemma load_results_errors_witness :
  load_results sample_float sample_fs_ab "elsewhere"
    = ([], inl (ValueError "Please specify a valid directory with a results_dir folder.")) /\
  exists log msg,
    load_results sample_float (sample_fs sample_modelc None None) "run" = (log, inl (IOError msg)).
Proof.
  split.
  - apply (proj1 (load_results_errors sample_float sample_fs_ab "elsewhere")).
    vm_compute. reflexivity.
  - apply (proj2 (load_results_errors sample_float (sample_fs sample_modelc None None) "run")).
    + vm_compute. reflexivity.
    + intros f Hf. vm_compute in Hf. injection Hf as <-.
      exists (replicate 9 (PNum 1)). split; [reflexivity | simpl; lia].
    + vm_compute. reflexivity.
Defined.

Lemma read_results_files_layout_witness :
  exists log t y T,
    read_results_files sample_float sample_fs_ab "run/results_dir/ddasac_results_1.out"
      ["A"; "B"]%string = (log, inr (t, y, T)) /\
    exists f,
      fs_files sample_fs_ab !! "run/results_dir/ddasac_results_1.out"%string = Some f /\
      let lines := py_readlines (file_text f) in
      (7 <= length lines)%nat /\ length t = (length lines - 7)%nat /\
      length y = length t /\ length T = length t /\
      forall i, (i < length t)%nat ->
        exists line tv row Tv,
          lines !! S i = Some line /\ t !! i = Some tv /\ y !! i = Some row /\
          T !! i = Some Tv /\ data_line_layout sample_float 2 line tv row Tv.
Proof.
  destruct (read_results_files sample_float sample_fs_ab "run/results_dir/ddasac_results_1.out"
              ["A"; "B"]%string) as [log [e | [[t y] T]]] eqn:E.
  { vm_compute in E. discriminate. }
  exists log, t, y, T. split; [reflexivity |].
  exact (read_results_files_layout _ _ _ _ _ _ _ _ E).
Defined.

Lemma tar_elem_analysis_percentages_witness :
  exists log r,
    tar_elem_analysis sample_MW sample_si sample_y [0; 1] TEnd = (log, inr r) /\
    ea0_molpercent r = np_normalize (ea0 r) /\ ea_molpercent r = np_normalize (ea r) /\
    ea0_wtpercent r = np_normalize (zip_with Qmult (ea0 r) [12.011; 1.0079; 15.999]) /\
    ea_wtpercent r = np_normalize (zip_with Qmult (ea r) [12.011; 1.0079; 15.999]) /\
    (~ np_sum (ea0 r) == 0 -> sums_to_one (ea0_molpercent r)) /\
    (~ np_sum (ea r) == 0 -> sums_to_one (ea_molpercent r)) /\
    (~ np_sum (zip_with Qmult (ea0 r) [12.011; 1.0079; 15.999]) == 0 ->
     sums_to_one (ea0_wtpercent r)) /\
    (~ np_sum (zip_with Qmult (ea r) [12.011; 1.0079; 15.999]) == 0 ->
     sums_to_one (ea_wtpercent r)).
Proof.
  destruct (tar_elem_analysis sample_MW sample_si sample_y [0; 1] TEnd)
    as [log [e | r]] eqn:E.
  { vm_compute in E. discriminate. }
  exists log, r. split; [reflexivity |].
  exact (tar_elem_analysis_percentages _ _ _ _ _ _ _ E).
Defined.

Lemma lump_species_row_sums_witness :
  exists log lumped pf ml,
    lump_species sample_MW sample_si sample_m = (log, inr (lumped, pf, ml)) /\
    length lumped = length sample_m /\
    forall r mrow, sample_m !! r = Some mrow ->
      exists lrow, lumped !! r = Some lrow /\ length lrow = 8%nat /\
        np_sum lrow == phase_mass lump_phases sample_MW sample_si mrow /\
        (omap (fun sp => sample_si !! sp.1)
              (filter (fun sp => mw_phase sp.2 ∈ lump_phases) sample_MW)
           ≡ₚ seq 0 (length mrow) ->
         np_sum mrow == 1 -> np_sum lrow == 1).
Proof.
  destruct (lump_species sample_MW sample_si sample_m)
    as [log [e | [[lumped pf] ml]]] eqn:E.
  { vm_compute in E. discriminate. }
  exists log, lumped, pf, ml. split; [reflexivity |].
  exact (lump_species_row_sums _ _ _ _ _ _ _ E).
Defined.

Lemma no_matching_species_gives_nan_witness :
  C_fun_gen [("PLIGC", sample_entry "s" "" [15; 14; 4] [1; 4; 2; 3; 1; 2; 2])]%string
    ["g"]%string sample_si sample_y 1 = ([], inr (replicate 7 NaN)) /\
  exists log r,
    tar_elem_analysis [("PLIGC", sample_entry "s" "" [15; 14; 4] [1; 4; 2; 3; 1; 2; 2])]%string
      sample_si sample_y [0; 1] TEnd = (log, inr r) /\
    ea r = [0; 0; 0] /\ ea_molpercent r = [NaN; NaN; NaN] /\ ea_wtpercent r = [NaN; NaN; NaN].
Proof.
  destruct (no_matching_species_gives_nan
              [("PLIGC", sample_entry "s" "" [15; 14; 4] [1; 4; 2; 3; 1; 2; 2])]%string
              sample_si sample_y [0; 1] TEnd ["g"]%string 1) as [H1 H2].
  split.
  - apply H1.
    + discriminate.
    + repeat constructor. simpl. rewrite list_elem_of_In. simpl. intuition discriminate.
  - apply H2.
    + repeat constructor. simpl. rewrite list_elem_of_In. simpl. intuition discriminate.
    + exists [2; 0; 0; 0]. split; [reflexivity |].
      repeat constructor. exists 0%nat. split_and!; [vm_compute; reflexivity | simpl; lia | simpl; lia].
    + exact I.
Defined.

Lemma report_moisture_tar_fraction_witness :
  exists log v,
    report_moisture sample_MW sample_si sample_y sample_m [0; 1] = (log, inr v) /\
    exists mrow iw w,
      py_index sample_m (Z.of_nat (length [0; 1]) - 1) = Some mrow /\
      sample_si !! "H2O"%string = Some iw /\ mrow !! iw = Some w /\
      fval_eq v (fdiv w (phase_mass tar_phases sample_MW sample_si mrow)).
Proof.
  destruct (report_moisture sample_MW sample_si sample_y sample_m [0; 1])
    as [log [e | v]] eqn:E.
  { vm_compute in E. discriminate. }
  exists log, v. split; [reflexivity |].
  exact (report_moisture_tar_fraction _ _ _ _ _ _ _ E).
Defined.

(* ================================================================== *)
(** * Further properties of the loader *)

Lemma bind_inr_log {A B} (m : M A) (f : A -> M B) log b :
  (m ≫= f) = (log, inr b) ->
  exists l1 a l2, m = (l1, inr a) /\ f a = (l2, inr b) /\ log = l1 ++ l2.
Proof.
  unfold mbind, M_bind, bind. destruct m as [l1 [e | a]]; [congruence |].
  destruct (f a) as [l2 r] eqn:E. intros [= <- ->].
  exists l1, a, l2. split_and!; [reflexivity | exact E | reflexivity].
Qed.

Ltac inv_bind_log H a Hm Hl := apply bind_inr_log in H as (? & a & ? & Hm & H & Hl).

Lemma bind_silent {A B} (m : M A) (f : A -> M B) :
  m.1 = [] -> (forall a, (f a).1 = []) -> (m ≫= f).1 = [].
Proof.
  unfold mbind, M_bind, bind. destruct m as [l [e | a]]; simpl; intros Hm Hf; [done |].
  specialize (Hf a). destruct (f a). simpl in *. by subst.
Qed.

Lemma of_option_silent {A} (e : exn) (o : option A) : (of_option e o).1 = [].
Proof. by destruct o. Qed.

Lemma fill_row_silent to_float row j fields : (fill_row to_float row j fields).1 = [].
Proof.
  revert row j. induction fields as [|f fields IH]; intros row j; simpl; [done |].
  case_bool_decide; [| done].
  apply bind_silent; [apply of_option_silent | intros; apply IH].
Qed.

Lemma parse_row_silent to_float n line : (parse_row to_float n line).1 = [].
Proof.
  unfold parse_row, py_get, py_float.
  repeat (apply bind_silent; [first [apply of_option_silent | apply fill_row_silent] | intros ?]).
  done.
Qed.

Lemma mapM_silent {A B} (f : A -> M B) (l : list A) :
  (forall a, (f a).1 = []) -> (mapM f l).1 = [].
Proof.
  intros Hf. induction l as [|a l IH]; simpl; [done |].
  apply bind_silent; [apply Hf | intros; apply bind_silent; [apply IH | done]].
Qed.

Lemma py_open_log F p l f : py_open F p = (l, inr f) -> l = [EOpen p].
Proof. unfold py_open. destruct (fs_files F !! p); congruence. Qed.

(** A successful [read_results_files] opens its file twice and prints
    nothing. *)
Lemma read_results_files_log to_float F filename sl log v :
  read_results_files to_float F filename sl = (log, inr v) ->
  log = [EOpen filename; EOpen filename].
Proof.
  unfold read_results_files. intros H.
  inv_bind_log H f Hf Hl1. apply py_open_log in Hf.
  case_bool_decide; [discriminate |].
  inv_bind_log H f' Hf' Hl2. apply py_open_log in Hf'.
  inv_bind_log H rows Hrows Hl3.
  assert (Hs := mapM_silent (parse_row to_float (length sl))
                  (take (length (py_readlines (file_text f)) - 7)
                     (drop 1 (py_readlines (file_text f)))) (parse_row_silent to_float _)).
  rewrite Hrows in Hs. simpl in Hs.
  cbv [mret M_ret ret] in H. injection H as <- _. subst. reflexivity.
Qed.

(** The arrays read from one file are aligned, and each row has one column
    per species. *)
Lemma read_results_files_shape to_float F filename sl log t y T :
  read_results_files to_float F filename sl = (log, inr (t, y, T)) ->
  length y = length t /\ length T = length t /\ rows_of_width (length sl) y.
Proof.
  unfold read_results_files. intros H.
  inv_bind H f Hf. case_bool_decide; [discriminate |].
  inv_bind H f' Hf'. inv_bind H rows Hrows.
  cbv [mret M_ret ret] in H. injection H as _ <- <- <-.
  apply mapM_inr in Hrows. rewrite !length_map. split_and!; [done | done |].
  intros i row Hi. rewrite lookup_map in Hi.
  destruct (rows !! i) as [[[tv row'] Tv] |] eqn:Er; [| discriminate].
  injection Hi as <-.
  destruct (Forall2_lookup_r _ _ _ i _ Hrows Er) as (line & _ & lg & Hp).
  apply parse_row_layout in Hp. unfold data_line_layout in Hp. simpl. tauto.
Qed.

Lemma load_segment_missing to_float F file sl msg seg :
  fs_files F !! file = None ->
  load_segment to_float F file sl msg seg = ([EOpen file; EPrint msg], inr seg).
Proof.
  intros Hf. unfold load_segment, read_results_files, py_open. rewrite Hf. reflexivity.
Qed.

(** A later segment either is read and appended, or its read raised an
    [IOError] and the data are left as they were. *)
Lemma load_segment_inr to_float F file sl msg seg log seg' :
  load_segment to_float F file sl msg seg = (log, inr seg') ->
  seg' = seg \/
  exists lg seg2 lg', read_results_files to_float F file sl = (lg, inr seg2) /\
                      append_segment seg seg2 = (lg', inr seg').
Proof.
  unfold load_segment, try_io. intros H.
  destruct (seg2 ← read_results_files to_float F file sl; append_segment seg seg2)
    as [l [e | v]] eqn:E.
  - destruct e; try discriminate. cbv in H. injection H as _ ->. by left.
  - injection H as _ ->. right. apply bind_inr in E as (l1 & seg2 & l2 & E1 & E2). eauto.
Qed.

Lemma append_segment_shape n y t T t2 y2 T2 l y' t' T' :
  append_segment (y, t, T) (t2, y2, T2) = (l, inr (y', t', T')) ->
  length y = length t -> length T = length t -> rows_of_width n y ->
  length y2 = length t2 -> length T2 = length t2 -> rows_of_width n y2 ->
  length y' = length t' /\ length T' = length t' /\ rows_of_width n y'.
Proof.
  unfold append_segment. intros H Hy HT Hw Hy2 HT2 Hw2.
  inv_bind H te Hte. cbv [mret M_ret ret] in H. injection H as _ <- <- <-.
  rewrite !length_app, length_map, !length_drop. split_and!; [lia | lia |].
  intros i row Hi. rewrite lookup_app in Hi.
  destruct (y !! i) eqn:Ey.
  - injection Hi as <-. eauto.
  - rewrite lookup_drop in Hi. eauto.
Qed.

(** X: whatever segments are present, a successful [load_results] returns a
    time array [t], a concentration matrix [y] and a temperature array [T]
    with one entry per saved time, and every row of [y] has one column per
    species of the returned species list. *)
Theorem load_results_aligned to_float F path log r :
  load_results to_float F path = (log, inr r) ->
  length (r_y r) = length (r_t r) /\ length (r_T r) = length (r_t r) /\
  rows_of_width (length (r_specieslist r)) (r_y r).
Proof.
  intros H. unfold load_results in H.
  destruct (negb _); [discriminate |].
  inv_bind H params Hp. inv_bind H prog_params Hpp. inv_bind H ps Hps.
  destruct (negb _); [discriminate |].
  inv_bind H modelc Hmodelc. cbv beta in H.
  destruct (build_species_maps (species_from_modelc (file_text modelc)))
    as [[sl si] its] eqn:Eb.
  inv_bind H seg1 Hseg1. destruct seg1 as [[t y] T].
  destruct (read_results_files_shape _ _ _ _ _ _ _ _ Hseg1) as (Hy & HT & Hw).
  inv_bind H seg2 Hseg2. inv_bind H seg3 Hseg3. destruct seg3 as [[y3 t3] T3].
  cbv [mret M_ret ret] in H. injection H as _ <-. simpl.
  assert (Hstep : forall file msg seg seg' lg,
            load_segment to_float F file sl msg seg = (lg, inr seg') ->
            (let '(y, t, T) := seg in
             length y = length t /\ length T = length t /\ rows_of_width (length sl) y) ->
            (let '(y, t, T) := seg' in
             length y = length t /\ length T = length t /\ rows_of_width (length sl) y)).
  { intros file msg [[ya ta] Ta] [[yb tb] Tb] lg Hl Hinv.
    destruct (load_segment_inr _ _ _ _ _ _ _ _ Hl) as [Heq | (lg1 & [[t2 y2] T2] & lg2 & Hr & Ha)].
    { injection Heq as -> -> ->. done. }
    destruct (read_results_files_shape _ _ _ _ _ _ _ _ Hr) as (Hy2 & HT2 & Hw2).
    destruct Hinv as (Hya & HTa & Hwa).
    eapply append_segment_shape; eauto. }
  exact (Hstep _ _ _ _ _ Hseg3 (Hstep _ _ _ _ _ Hseg2 (conj Hy (conj HT Hw)))).
Qed.

(** X: [read_results_files] raises [IOError] when the file does not exist
    and numpy's [ValueError] (negative dimensions) when the file has fewer
    than 7 lines; a file of exactly 7 lines gives empty arrays. *)
Theorem read_results_files_edge_cases to_float F filename sl :
  (fs_files F !! filename = None ->
   read_results_files to_float F filename sl = ([EOpen filename], inl (IOError filename))) /\
  (forall f, fs_files F !! filename = Some f ->
   (length (py_readlines (file_text f)) < 7)%nat ->
   read_results_files to_float F filename sl
   = ([EOpen filename], inl (ValueError "negative dimensions are not allowed"))) /\
  (forall f, fs_files F !! filename = Some f ->
   length (py_readlines (file_text f)) = 7%nat ->
   read_results_files to_float F filename sl
   = ([EOpen filename; EOpen filename], inr ([], [], []))).
Proof.
  split_and!.
  - intros Hf. unfold read_results_files, py_open. rewrite Hf. reflexivity.
  - intros f Hf Hlt. unfold read_results_files, py_open. rewrite Hf.
    cbv [mbind M_bind bind]. rewrite bool_decide_true by done. reflexivity.
  - intros f Hf Heq. unfold read_results_files, py_open. rewrite Hf.
    cbv [mbind M_bind bind]. rewrite bool_decide_false by lia.
    rewrite Heq. reflexivity.
Qed.

Lemma mapM_py_get_9_short (vs : list pval) :
  (length vs < 9)%nat -> mapM (py_get vs) [0; 1; 2; 3; 4; 5; 6; 7; 8]%Z = ([], inl IndexError).
Proof.
  intros Hl. do 9 (destruct vs as [|? vs]; [reflexivity |]). simpl in Hl. lia.
Qed.

Lemma mapM_py_get_9_take (vs : list pval) l ps :
  mapM (py_get vs) [0; 1; 2; 3; 4; 5; 6; 7; 8]%Z = (l, inr ps) -> l = [] /\ ps = take 9 vs.
Proof.
  intros H. do 9 (destruct vs as [|? vs]; [discriminate |]).
  cbv in H. injection H as <- <-. done.
Qed.

(** X: [load_results] returns as its first nine values the first nine
    entries of the pickled [prog_params], in order; when the pickle holds
    fewer than nine entries it raises [IndexError] after opening only
    [prog_params.pkl]. *)
Theorem load_results_params to_float F path vs :
  let rpath := (path +:+ "/results_dir")%string in
  os_path_exists F rpath = true ->
  fs_files F !! (rpath +:+ "/prog_params.pkl")%string = Some (PickleFile vs) ->
  ((length vs < 9)%nat ->
   load_results to_float F path
   = ([EOpen (rpath +:+ "/prog_params.pkl")%string], inl IndexError)) /\
  (forall log r, load_results to_float F path = (log, inr r) -> r_params r = take 9 vs).
Proof.
  intros rpath Hex Hpkl. split.
  - intros Hlt. unfold load_results. fold rpath. rewrite Hex. simpl negb. cbv iota.
    unfold py_open. rewrite Hpkl. cbn [mbind M_bind bind pickle_load ret].
    rewrite (mapM_py_get_9_short vs Hlt). reflexivity.
  - intros log r H. unfold load_results in H. fold rpath in H. rewrite Hex in H.
    simpl negb in H. cbv iota in H.
    inv_bind H params Hp. apply py_open_inr in Hp. rewrite Hpkl in Hp. injection Hp as <-.
    inv_bind H pp Hpp. cbv in Hpp. injection Hpp as _ <-.
    inv_bind H ps Hps. apply mapM_py_get_9_take in Hps as [_ ->].
    destruct (negb _); [discriminate |].
    inv_bind H modelc Hmodelc. cbv beta in H.
    destruct (build_species_maps (species_from_modelc (file_text modelc)))
      as [[sl si] its] eqn:Eb.
    inv_bind H seg1 Hseg1. destruct seg1 as [[t y] T].
    inv_bind H seg2 Hseg2. inv_bind H seg3 Hseg3. destruct seg3 as [[y3 t3] T3].
    cbv [mret M_ret ret] in H. injection H as _ <-. reflexivity.
Qed.

Lemma bind_inr_step {A B} (m : M A) (f : A -> M B) l a :
  m = (l, inr a) -> (m ≫= f) = (l ++ (f a).1, (f a).2).
Proof. intros ->. unfold mbind, M_bind, bind. by destruct (f a). Qed.

(** X: when [ddasac_results_2.out] and [ddasac_results_3.out] are absent,
    [load_results] still succeeds: with a results directory, a pickled
    [prog_params] of at least nine entries, a [model.c] and a readable
    [ddasac_results_1.out], it returns the first nine parameters, the arrays
    of [ddasac_results_1.out] unchanged and the dictionaries of [model.c],
    and its only output is the two notices, after the files it opened. *)
Theorem load_results_missing_later_segments to_float F path vs modelc t y T :
  let rpath := (path +:+ "/results_dir")%string in
  let '(sl, si, its) := build_species_maps (species_from_modelc (file_text modelc)) in
  os_path_exists F rpath = true ->
  fs_files F !! (rpath +:+ "/prog_params.pkl")%string = Some (PickleFile vs) ->
  (9 <= length vs)%nat ->
  fs_files F !! (path +:+ "/model.c")%string = Some modelc ->
  read_results_files to_float F (rpath +:+ "/ddasac_results_1.out") sl
    = ([EOpen (rpath +:+ "/ddasac_results_1.out"); EOpen (rpath +:+ "/ddasac_results_1.out")],
       inr (t, y, T)) ->
  fs_files F !! (rpath +:+ "/ddasac_results_2.out")%string = None ->
  fs_files F !! (rpath +:+ "/ddasac_results_3.out")%string = None ->
  load_results to_float F path
  = ([EOpen (rpath +:+ "/prog_params.pkl"); EOpen (path +:+ "/model.c");
      EOpen (rpath +:+ "/ddasac_results_1.out"); EOpen (rpath +:+ "/ddasac_results_1.out");
      EOpen (rpath +:+ "/ddasac_results_2.out");
      EPrint "There is not a second DDASAC results file (isothermal hold)";
      EOpen (rpath +:+ "/ddasac_results_3.out");
      EPrint "There is not a third DDASAC results file (cool down period)"],
     inr {| r_params := take 9 vs; r_y := y; r_t := t; r_T := T;
            r_specieslist := sl; r_speciesindices := si; r_indices_to_species := its |}).
Proof.
  intros rpath. destruct (build_species_maps _) as [[sl si] its] eqn:Eb.
  intros Hex Hpkl H9 Hmc Hr1 H2 H3.
  destruct (mapM_py_get_9 vs H9) as [ps Hps].
  pose proof (mapM_py_get_9_take _ _ _ Hps) as [_ ->].
  unfold load_results. fold rpath. rewrite Hex. cbn [negb].
  rewrite (bind_inr_step (py_open F _) _ [EOpen (rpath +:+ "/prog_params.pkl")] (PickleFile vs))
    by (unfold py_open; by rewrite Hpkl).
  cbv beta.
  rewrite (bind_inr_step (pickle_load _) _ [] vs) by done. cbv beta.
  rewrite (bind_inr_step (mapM _ _) _ [] (take 9 vs)) by done. cbv beta.
  assert (Hisf : os_path_isfile F (rpath +:+ "/ddasac_results_1.out") = true).
  { unfold read_results_files in Hr1. apply bind_inr in Hr1 as (? & ? & ? & Hf & _).
    apply py_open_inr in Hf. unfold os_path_isfile. rewrite Hf. by apply bool_decide_true. }
  rewrite Hisf. cbn [negb].
  rewrite (bind_inr_step (py_open F _) _ [EOpen (path +:+ "/model.c")] modelc)
    by (unfold py_open; by rewrite Hmc).
  cbv beta. rewrite Eb.
  rewrite (bind_inr_step (read_results_files _ _ _ _) _ _ _ Hr1). cbv beta.
  rewrite (bind_inr_step (load_segment _ _ _ _ _ _) _ _ _ (load_segment_missing _ _ _ _ _ _ H2)).
  cbv beta.
  rewrite (bind_inr_step (load_segment _ _ _ _ _ _) _ _ _ (load_segment_missing _ _ _ _ _ _ H3)).
  reflexivity.
Qed.

(* ------------------------------------------------------------------ *)
(** ** The species dictionaries and the species list of [model.c] *)

Lemma py_dict_snoc {K V} `{Countable K} (ps : list (K * V)) k v :
  py_dict (ps ++ [(k, v)]) = <[k := v]> (py_dict ps).
Proof. unfold py_dict. by rewrite foldl_app. Qed.

Lemma zip_seq_snoc (l : list string) a :
  zip (l ++ [a]) (seq 0 (length (l ++ [a]))) = zip l (seq 0 (length l)) ++ [(a, length l)].
Proof.
  rewrite length_app. simpl length. rewrite seq_app.
  rewrite (zip_with_app pair l [a] (seq 0 (length l)) (seq (0 + length l) 1)); [done |]. by rewrite length_seq.
Qed.

Lemma lookup_snoc_ne (l : list string) a s j :
  s <> a -> (l ++ [a]) !! j = Some s <-> l !! j = Some s.
Proof.
  intros Hne. rewrite lookup_snoc_Some. split.
  - intros [[_ ?] | [_ ?]]; [done | congruence].
  - intros Hj. left. split; [| done]. apply lookup_lt_Some in Hj. done.
Qed.

(** X: [speciesindices_ddasac] maps a species to the position of its last
    occurrence in the [enum] of [model.c]: [s] is mapped to [i] exactly when
    [s] is the [i]-th species and no later position holds [s]. *)
Theorem speciesindices_last_occurrence l s i :
  (build_species_maps l).1.2 !! s = Some i <->
  l !! i = Some s /\ (forall j, l !! j = Some s -> (j <= i)%nat).
Proof.
  simpl. revert i. induction l as [|a l IH] using rev_ind; intros i.
  - simpl. change (py_dict (K:=string) (V:=nat) []) with (∅ : gmap string nat). rewrite lookup_empty. split; [discriminate | intros [? _]; discriminate].
  - rewrite zip_seq_snoc, py_dict_snoc. simpl.
    destruct (decide (s = a)) as [-> | Hne].
    + rewrite lookup_insert_eq. split.
      * intros [= <-]. split; [by rewrite lookup_snoc_Some; right |].
        intros j Hj. apply lookup_lt_Some in Hj. rewrite length_app in Hj. simpl in Hj. lia.
      * intros [Hi Hmax]. assert (Hle := Hmax (length l) ltac:(rewrite lookup_snoc_Some; by right)).
        apply lookup_lt_Some in Hi. rewrite length_app in Hi. simpl in Hi. f_equal. lia.
    + rewrite lookup_insert_ne by congruence. rewrite IH, lookup_snoc_ne by done.
      split; intros [Hi Hmax]; split; [done | | done |];
        intros j Hj; apply Hmax; [by apply (lookup_snoc_ne l a s j Hne) | by apply (lookup_snoc_ne l a s j Hne)].
Qed.

(** X: [indices_to_species_ddasac] is exactly the inverse of
    [speciesindices_ddasac]: it maps [i] to [s] if and only if
    [speciesindices_ddasac] maps [s] to [i]. *)
Theorem indices_to_species_exact l i s :
  (build_species_maps l).2 !! i = Some s <-> (build_species_maps l).1.2 !! s = Some i.
Proof.
  unfold build_species_maps; simpl.
  set (si := py_dict (zip l (seq 0 (length l)))).
  split.
  - intros Hs. apply py_dict_lookup in Hs. rewrite zip_snd_fst in Hs.
    apply list_elem_of_fmap in Hs as ([s' i'] & Heq & Hin). simpl in Heq.
    injection Heq as -> ->. by apply elem_of_map_to_list in Hin.
  - intros Hi.
    destruct (py_dict_is_Some (zip (map_to_list si).*2 (map_to_list si).*1) i) as [s' Hs'].
    { rewrite fst_zip; [| by rewrite !length_fmap].
      apply list_elem_of_fmap. exists (s, i). split; [done |]. by apply elem_of_map_to_list. }
    rewrite Hs'. f_equal.
    apply py_dict_lookup in Hs'. rewrite zip_snd_fst in Hs'.
    apply list_elem_of_fmap in Hs' as ([s'' i'] & Heq & Hin'). simpl in Heq.
    injection Heq as -> ->. apply elem_of_map_to_list in Hin'.
    apply speciesindices_lookup in Hi, Hin'. congruence.
Qed.

Lemma substring_app_l (p s : string) k m :
  substring (String.length p + k) m (p +:+ s) = substring k m s.
Proof. induction p as [|c p IH]; [done |]. simpl. exact IH. Qed.

Lemma substring_app_char (a s : string) c k :
  substring 0 (String.length a + S k) (a +:+ String c s) = a +:+ String c (substring 0 k s).
Proof. induction a as [|d a IH]; [done |]. simpl. by rewrite IH. Qed.

Lemma substring_app_prefix (a s : string) :
  substring 0 (String.length a) (a +:+ s) = a.
Proof. induction a as [|d a IH]; [by destruct s |]. simpl. by rewrite IH. Qed.

Lemma chars_app (a b : string) :
  list_ascii_of_string (a +:+ b) = list_ascii_of_string a ++ list_ascii_of_string b.
Proof. induction a as [|d a IH]; [done |]. simpl. by rewrite IH. Qed.

Lemma chars_concat (names : list string) c :
  In c (list_ascii_of_string (String.concat "," names)) ->
  c = ","%char \/ exists n, In n names /\ In c (list_ascii_of_string n).
Proof.
  induction names as [|n names IH]; simpl; [done |].
  destruct names as [|m names].
  - intros Hc. right. exists n. auto.
  - rewrite chars_app. intros Hc. apply in_app_or in Hc as [Hc | [Hc | Hc]].
    + right. exists n. auto.
    + by left.
    + destruct (IH Hc) as [? | (n' & ? & ?)]; [by left | right; exists n'; auto].
Qed.

Lemma index_close (a s : string) :
  (forall c, In c (list_ascii_of_string a) -> c <> "}"%char) ->
  String.index 0 "}" (a +:+ String "}" s) = Some (String.length a).
Proof.
  induction a as [|d a IH]; intros Ha; [by destruct s |].
  change (String d a +:+ String "}" s) with (String d (a +:+ String "}" s)).
  cbn [String.index String.prefix String.length].
  destruct (ascii_dec "}" d) as [Heq | _].
  { exfalso. apply (Ha d); [by left | done]. }
  rewrite IH; try done. intros c Hc. apply Ha. by right.
Qed.

Lemma py_remove_absent (c : ascii) (s : string) :
  (forall d, In d (list_ascii_of_string s) -> d <> c) -> py_remove c s = s.
Proof.
  induction s as [|d s IH]; intros Hs; [done |]. simpl.
  destruct (Ascii.eqb_spec d c) as [Heq | _].
  { exfalso. apply (Hs d); [by left | done]. }
  rewrite IH; try done. intros e He. apply Hs. by right.
Qed.

Lemma py_split_app (sep : ascii) (a s f : string) fs :
  (forall c, In c (list_ascii_of_string a) -> c <> sep) ->
  py_split sep s = f :: fs -> py_split sep (a +:+ s) = (a +:+ f) :: fs.
Proof.
  induction a as [|d a IH]; intros Ha Hs; [done |]. simpl.
  rewrite IH; [| intros c Hc; apply Ha; by right | done].
  destruct (Ascii.eqb_spec d sep) as [Heq | _]; [| done].
  exfalso. apply (Ha d); [by left | done].
Qed.

Lemma append_empty_r (a : string) : a +:+ EmptyString = a.
Proof. induction a as [|d a IH]; [done |]. change (String d (a +:+ EmptyString) = String d a). by rewrite IH. Qed.

Lemma py_split_concat (names : list string) :
  names <> [] ->
  Forall (fun n => forall c, In c (list_ascii_of_string n) -> c <> ","%char) names ->
  py_split "," (String.concat "," names) = names.
Proof.
  induction names as [|n names IH]; intros Hne Hall; [done |].
  apply Forall_cons in Hall as [Hn Hall].
  destruct names as [|m names].
  - simpl. rewrite <- (append_empty_r n) at 1.
    rewrite (py_split_app _ n "" "" []); [by rewrite append_empty_r | done | done].
  - change (String.concat "," (n :: m :: names))
      with (n +:+ String "," (String.concat "," (m :: names))).
    rewrite (py_split_app _ n _ EmptyString (py_split "," (String.concat "," (m :: names)))).
    + rewrite append_empty_r, IH; done.
    + done.
    + cbn [py_split]. by rewrite Ascii.eqb_refl.
Qed.

Lemma plain_name_spec n c :
  plain_name n = true -> In c (list_ascii_of_string n) ->
  c <> ","%char /\ c <> "}"%char /\ c <> " "%char /\ c <> ascii_of_nat 10.
Proof.
  unfold plain_name. rewrite forallb_forall. intros Hn Hc. specialize (Hn c Hc).
  rewrite !andb_true_iff, !negb_true_iff, !Ascii.eqb_neq in Hn. tauto.
Qed.

(** X: a [model.c] whose first [enum {] is followed by the species names
    separated by commas and then [}], within 1000 characters, gives back
    exactly these names, in order. *)
Theorem species_from_modelc_roundtrip pre names post :
  names <> [] -> forallb plain_name names = true ->
  (String.length (String.concat "," names) < 1000)%nat ->
  py_find "enum {" (pre +:+ "enum {" +:+ String.concat "," names +:+ "}" +:+ post)
    = Z.of_nat (String.length pre) ->
  species_from_modelc (pre +:+ "enum {" +:+ String.concat "," names +:+ "}" +:+ post) = names.
Proof.
  intros Hne Hplain Hlen Hfind. unfold species_from_modelc. rewrite Hfind.
  set (inner := String.concat "," names) in *.
  replace (Z.to_nat (Z.of_nat (String.length pre) + 6)) with (String.length pre + 6)%nat by lia.
  rewrite substring_app_l.
  change (substring 6 1000 ("enum {" +:+ inner +:+ "}" +:+ post))
    with (substring 0 1000 (inner +:+ String "}" post)).
  replace 1000%nat with (String.length inner + S (999 - String.length inner))%nat by lia.
  rewrite substring_app_char.
  assert (Hinner : forall c, In c (list_ascii_of_string inner) ->
            c = ","%char \/ (c <> "}"%char /\ c <> " "%char /\ c <> ascii_of_nat 10)).
  { intros c Hc. destruct (chars_concat names c Hc) as [? | (n & Hn & Hcn)]; [by left |].
    right. rewrite forallb_forall in Hplain.
    destruct (plain_name_spec n c (Hplain n Hn) Hcn) as (_ & ? & ? & ?). done. }
  rewrite index_close; [| intros c Hc; destruct (Hinner c Hc) as [-> | (? & _)]; done].
  rewrite substring_app_prefix.
  rewrite (py_remove_absent (ascii_of_nat 10)); [| intros c Hc; destruct (Hinner c Hc) as [-> | (_ & _ & ?)]; done].
  rewrite py_remove_absent; [| intros c Hc; destruct (Hinner c Hc) as [-> | (_ & ? & _)]; done].
  apply py_split_concat; [done |].
  rewrite forallb_forall in Hplain. apply Forall_forall. intros n Hn c Hc.
  apply list_elem_of_In in Hn. by destruct (plain_name_spec n c (Hplain n Hn) Hc).
Qed.

(* ------------------------------------------------------------------ *)
(** ** The columns of [lump_species] *)

Lemma tagged_mass_cons sel sp MW si row :
  tagged_mass sel (sp :: MW) si row ==
  (if sel sp.2 then default 0 (si !! sp.1 ≫= fun i => row !! i) else 0)
  + tagged_mass sel MW si row.
Proof. unfold tagged_mass. simpl map. apply np_sum_cons. Qed.

Lemma nth_alter_plus (row : list Q) (j k : nat) (xv : Q) :
  (k < length row)%nat ->
  nth j (alter (fun v => v + xv) k row) 0 == nth j row 0 + (if Nat.eqb j k then xv else 0).
Proof.
  revert j k. induction row as [|a row IH]; intros j k Hk; simpl in Hk; [lia |].
  destruct k as [|k], j as [|j]; simpl; try ring.
  apply IH. lia.
Qed.

Lemma add_species_column_nth si m s A k l A1 w :
  add_species_column si m s A k = (l, inr A1) ->
  length A = length m -> rows_of_width w A -> (k < w)%nat ->
  l = [] /\ length A1 = length m /\ rows_of_width w A1 /\
  forall r mrow arow, m !! r = Some mrow -> A !! r = Some arow ->
    exists arow1, A1 !! r = Some arow1 /\
      forall j, nth j arow1 0 == nth j arow 0 +
        (if Nat.eqb j k then default 0 (si !! s ≫= fun i => mrow !! i) else 0).
Proof.
  intros H HA Hw Hk.
  assert (Hl : (add_species_column si m s A k).1 = []).
  { unfold add_species_column. apply bind_silent; [apply of_option_silent |].
    intros i. apply bind_silent; [| done].
    apply mapM_silent. intros row. apply of_option_silent. }
  rewrite H in Hl. simpl in Hl.
  unfold add_species_column in H.
  inv_bind H i Hi. inv_bind H col Hcol. cbv [mret M_ret ret] in H. injection H as _ <-.
  apply of_option_inr in Hi. apply np_column_inr in Hcol as [Hlc Hc].
  unfold add_to_column. split_and!.
  - done.
  - rewrite length_zip_with. lia.
  - intros r arow Hr. rewrite lookup_zip_with in Hr.
    destruct (A !! r) as [row |] eqn:Er; simpl in Hr; [| discriminate].
    destruct (col !! r); simpl in Hr; [| discriminate].
    injection Hr as <-. rewrite length_alter. eauto.
  - intros r mrow arow Hm Ha. destruct (Hc r mrow Hm) as (xv & Hx & Hcx).
    exists (alter (fun v => v + xv) k arow). split.
    + rewrite lookup_zip_with, Ha, Hcx. reflexivity.
    + intros j. rewrite Hi. simpl. rewrite Hx. simpl.
      apply nth_alter_plus. rewrite (Hw r arow Ha). done.
Qed.

Lemma nth_replicate_0 (n j : nat) : nth j (replicate n (0 : Q)) 0 = 0.
Proof. revert j. induction n as [|n IH]; intros [|j]; simpl; auto. Qed.

Lemma add_species_column_sel si m s e A K l A1 w (sel : nat -> mw_entry -> bool) :
  add_species_column si m s A K = (l, inr A1) -> (K < w)%nat ->
  (forall k, (k < w)%nat -> Nat.eqb k K = sel k e) ->
  length A = length m -> rows_of_width w A ->
  l = [] /\ length A1 = length m /\ rows_of_width w A1 /\
  forall r mrow arow, m !! r = Some mrow -> A !! r = Some arow ->
    exists arow1, A1 !! r = Some arow1 /\
      forall k, (k < w)%nat -> nth k arow1 0 == nth k arow 0 +
        (if sel k e then default 0 (si !! s ≫= fun i => mrow !! i) else 0).
Proof.
  intros H HK Hsel HA Hw.
  destruct (add_species_column_nth _ _ _ _ _ _ _ _ H HA Hw HK) as (Hl & HA1 & Hw1 & Hc).
  split_and!; try done.
  intros r mrow arow Hm Ha. destruct (Hc r mrow arow Hm Ha) as (arow1 & Ha1 & Hn).
  exists arow1. split; [done |]. intros k Hk. rewrite <- (Hsel k Hk). apply Hn.
Qed.

Ltac lump_col E := intros k Hk; unfold lump_column; rewrite E;
  do 8 (destruct k as [|k]; [reflexivity |]); lia.
Ltac pheno_col E F := intros j Hj; unfold phenolic_column; rewrite E, F;
  do 2 (destruct j as [|j]; [reflexivity |]); lia.
Ltac lump_branch H E e K :=
  let L2 := fresh "L2" in let Ha := fresh "Ha" in let Hlg := fresh "Hlg" in
  let Hl2 := fresh "Hl2" in let HL1 := fresh "HL1" in let Hpf1 := fresh "Hpf1" in
  let HL2 := fresh "HL2" in let Hw2 := fresh "Hw2" in let Hc := fresh "Hc" in
  inv_bind_log H L2 Ha Hlg; cbv [mret M_ret ret] in H; injection H as Hl2 HL1 Hpf1;
  subst;
  destruct (add_species_column_sel _ _ _ e _ K _ _ 8 lump_column Ha ltac:(lia)
              ltac:(lump_col E) ltac:(assumption) ltac:(assumption)) as (-> & HL2 & Hw2 & Hc);
  rewrite bool_decide_true by (phase_in E); split_and!; try done;
  let r := fresh "r" in let mrow := fresh "mrow" in let lrow := fresh "lrow" in
  let prow := fresh "prow" in let Hm := fresh "Hm" in let Hlr := fresh "Hlr" in
  let Hpr := fresh "Hpr" in let lrow1 := fresh "lrow1" in let Hl1 := fresh "Hl1" in
  let Hk := fresh "Hk" in
  intros r mrow lrow prow Hm Hlr Hpr; destruct (Hc r mrow lrow Hm Hlr) as (lrow1 & Hl1 & Hk);
  exists lrow1, prow; split_and!; try done;
  let j := fresh "j" in let Hj := fresh "Hj" in
  intros j Hj; replace (phenolic_column j e) with false by (unfold phenolic_column; rewrite E; reflexivity); ring.

Lemma lump_step_cols si m L pf s e l L1 pf1 :
  lump_step si m (L, pf) (s, e) = (l, inr (L1, pf1)) ->
  length L = length m -> rows_of_width 8 L -> length pf = length m -> rows_of_width 2 pf ->
  l = (if bool_decide (mw_phase e ∈ lump_phases) then []
       else [EPrint (s +:+ " does not have a phase defined.")]) /\
  length L1 = length m /\ rows_of_width 8 L1 /\ length pf1 = length m /\ rows_of_width 2 pf1 /\
  forall r mrow lrow prow, m !! r = Some mrow -> L !! r = Some lrow -> pf !! r = Some prow ->
    exists lrow1 prow1, L1 !! r = Some lrow1 /\ pf1 !! r = Some prow1 /\
      (forall k, (k < 8)%nat -> nth k lrow1 0 == nth k lrow 0 +
         (if lump_column k e then default 0 (si !! s ≫= fun i => mrow !! i) else 0)) /\
      (forall j, (j < 2)%nat -> nth j prow1 0 == nth j prow 0 +
         (if phenolic_column j e then default 0 (si !! s ≫= fun i => mrow !! i) else 0)).
Proof.
  intros H HL Hw Hpf Hwp. unfold lump_step in H. cbv beta iota zeta in H.
  destruct (String.eqb_spec (mw_phase e) "s") as [E|E]; [lump_branch H E e 0%nat |].
  destruct (String.eqb_spec (mw_phase e) "t") as [E1|E1].
  { inv_bind_log H L2 Ha Hlg.
    destruct (add_species_column_sel _ _ _ e _ 1 _ _ 8 lump_column Ha ltac:(lia)
                ltac:(lump_col E1) HL Hw) as (-> & HL2 & Hw2 & Hc).
    rewrite bool_decide_true by (phase_in E1).
    destruct (String.eqb_spec (mw_family e) "p") as [F|F].
    { inv_bind_log H p Hp Hlp. cbv [mret M_ret ret] in H. injection H as Hl2 HL1 Hpf1. subst.
      destruct (add_species_column_sel _ _ _ e _ 0 _ _ 2 phenolic_column Hp ltac:(lia)
                  ltac:(pheno_col E1 F) Hpf Hwp) as (-> & Hp2 & Hwp2 & Hcp).
      split_and!; try done.
      intros r mrow lrow prow Hm Hlr Hpr.
      destruct (Hc _ _ _ Hm Hlr) as (lrow1 & Hl1 & Hk).
      destruct (Hcp _ _ _ Hm Hpr) as (prow1 & Hp1 & Hj).
      exists lrow1, prow1. split_and!; done. }
    destruct (String.eqb_spec (mw_family e) "s") as [F'|F'].
    { inv_bind_log H p Hp Hlp. cbv [mret M_ret ret] in H. injection H as Hl2 HL1 Hpf1. subst.
      destruct (add_species_column_sel _ _ _ e _ 1 _ _ 2 phenolic_column Hp ltac:(lia)
                  ltac:(pheno_col E1 F') Hpf Hwp) as (-> & Hp2 & Hwp2 & Hcp).
      split_and!; try done.
      intros r mrow lrow prow Hm Hlr Hpr.
      destruct (Hc _ _ _ Hm Hlr) as (lrow1 & Hl1 & Hk).
      destruct (Hcp _ _ _ Hm Hpr) as (prow1 & Hp1 & Hj).
      exists lrow1, prow1. split_and!; done. }
    cbv [mret M_ret ret] in H. injection H as Hl2 HL1 Hpf1. subst.
    split_and!; try done.
    intros r mrow lrow prow Hm Hlr Hpr.
    destruct (Hc _ _ _ Hm Hlr) as (lrow1 & Hl1 & Hk).
    exists lrow1, prow. split_and!; try done.
    intros j Hj. replace (phenolic_column j e) with false; [ring |].
    unfold phenolic_column. rewrite E1, String.eqb_refl. simpl andb.
    do 2 (destruct j as [|j]; [symmetry; apply String.eqb_neq; assumption |]). lia. }
  destruct (String.eqb_spec (mw_phase e) "lt") as [E2|E2]; [lump_branch H E2 e 2%nat |].
  destruct (String.eqb_spec (mw_phase e) "g") as [E3|E3]; [lump_branch H E3 e 3%nat |].
  destruct (String.eqb_spec (mw_phase e) "CO") as [E4|E4]; [lump_branch H E4 e 4%nat |].
  destruct (String.eqb_spec (mw_phase e) "CO2") as [E5|E5]; [lump_branch H E5 e 5%nat |].
  destruct (String.eqb_spec (mw_phase e) "H2O") as [E6|E6]; [lump_branch H E6 e 6%nat |].
  destruct (String.eqb_spec (mw_phase e) "char") as [E7|E7]; [lump_branch H E7 e 7%nat |].
  inv_bind_log H u Hu Hlg. cbv [print] in Hu. injection Hu as Hu _.
  cbv [mret M_ret ret] in H. injection H as Hl2 HL1 Hpf1. subst.
  rewrite bool_decide_false by (rewrite list_elem_of_In; simpl; intuition congruence).
  split_and!; try done.
  intros r mrow lrow prow Hm Hlr Hpr. exists lrow, prow. split_and!; try done.
  - intros k Hk. replace (lump_column k e) with false; [ring |]. unfold lump_column.
    do 8 (destruct k as [|k]; [symmetry; apply String.eqb_neq; assumption |]). lia.
  - intros j Hj. replace (phenolic_column j e) with false; [ring |]. unfold phenolic_column.
    rewrite (proj2 (String.eqb_neq _ _) E1). reflexivity.
Qed.

Lemma foldlM_lump_cols MW si m L pf log L' pf' :
  foldlM (lump_step si m) (L, pf) MW = (log, inr (L', pf')) ->
  length L = length m -> rows_of_width 8 L -> length pf = length m -> rows_of_width 2 pf ->
  log = phase_notices MW /\
  length L' = length m /\ rows_of_width 8 L' /\ length pf' = length m /\ rows_of_width 2 pf' /\
  forall r mrow lrow prow, m !! r = Some mrow -> L !! r = Some lrow -> pf !! r = Some prow ->
    exists lrow' prow', L' !! r = Some lrow' /\ pf' !! r = Some prow' /\
      (forall k, (k < 8)%nat -> nth k lrow' 0 == nth k lrow 0 + tagged_mass (lump_column k) MW si mrow) /\
      (forall j, (j < 2)%nat -> nth j prow' 0 == nth j prow 0 + tagged_mass (phenolic_column j) MW si mrow).
Proof.
  revert L pf log. induction MW as [|[s e] MW IH]; intros L pf log H HL Hw Hpf Hwp.
  - cbv [foldlM mret M_ret ret] in H. injection H as <- <- <-.
    split_and!; try done. intros r mrow lrow prow _ Hl Hp. exists lrow, prow.
    split_and!; try done; intros; unfold tagged_mass, np_sum; simpl; ring.
  - cbn [foldlM] in H. apply bind_inr_log in H as (l1 & [L1 pf1] & l2 & Hs & H & ->).
    destruct (lump_step_cols _ _ _ _ _ _ _ _ _ Hs HL Hw Hpf Hwp)
      as (-> & HL1 & Hw1 & Hpf1 & Hwp1 & Hs1).
    destruct (IH _ _ _ H HL1 Hw1 Hpf1 Hwp1) as (-> & HL' & Hw' & Hpf' & Hwp' & Hs').
    split_and!; try done.
    + unfold phase_notices. rewrite filter_cons. simpl.
      case_bool_decide; [rewrite decide_False by tauto | rewrite decide_True by done]; done.
    + intros r mrow lrow prow Hm Hl Hp.
      destruct (Hs1 _ _ _ _ Hm Hl Hp) as (lrow1 & prow1 & Hl1 & Hp1 & Ek1 & Ej1).
      destruct (Hs' _ _ _ _ Hm Hl1 Hp1) as (lrow' & prow' & Hl' & Hp' & Ek' & Ej').
      exists lrow', prow'. split_and!; try done.
      * intros k Hk. rewrite Ek', Ek1, tagged_mass_cons by done. simpl. ring.
      * intros j Hj. rewrite Ej', Ej1, tagged_mass_cons by done. simpl. ring.
Qed.

(** X: column [k] of a row of [lumped] is the mass of the species of [MW]
    tagged with the phase [lump_phases[k]] (s, t, lt, g, CO, CO2, H2O,
    char), and the two columns of [phenolic_families] are the masses of the
    tar species of the phenol and of the syringol family. *)
Theorem lump_species_columns MW si m log lumped pf ml :
  lump_species MW si m = (log, inr (lumped, pf, ml)) ->
  length lumped = length m /\ length pf = length m /\
  forall r mrow, m !! r = Some mrow ->
    exists lrow prow, lumped !! r = Some lrow /\ pf !! r = Some prow /\
      length lrow = 8%nat /\ length prow = 2%nat /\
      (forall k, (k < 8)%nat -> nth k lrow 0 == tagged_mass (lump_column k) MW si mrow) /\
      (forall j, (j < 2)%nat -> nth j prow 0 == tagged_mass (phenolic_column j) MW si mrow).
Proof.
  unfold lump_species. intros H.
  apply bind_inr in H as (l1 & [L pf1] & l2 & Hf & H).
  cbv beta iota delta [mret M_ret ret] in H. injection H as _ H1 H2 H3. subst.
  assert (Hw0 : forall w, rows_of_width w (replicate (length m) (replicate w (0 : Q)))).
  { intros w r row Hr. apply lookup_replicate in Hr as [-> _]. apply length_replicate. }
  destruct (foldlM_lump_cols _ _ _ _ _ _ _ _ Hf (length_replicate _ _) (Hw0 8%nat)
              (length_replicate _ _) (Hw0 2%nat)) as (_ & HL & Hw & Hp & Hwp & Hs).
  split_and!; try done.
  intros r mrow Hm.
  assert (Hr : (r < length m)%nat) by (eapply lookup_lt_Some; eauto).
  destruct (Hs r mrow _ _ Hm (lookup_replicate_2 _ _ _ Hr) (lookup_replicate_2 _ _ _ Hr))
    as (lrow & prow & Hl & Hpr & Ek & Ej).
  exists lrow, prow. split_and!; [done | done | exact (Hw r lrow Hl) | exact (Hwp r prow Hpr) | |].
  - intros k Hk. rewrite Ek by done. rewrite nth_replicate_0. ring.
  - intros j Hj. rewrite Ej by done. rewrite nth_replicate_0. ring.
Qed.

(** X: [lump_species] prints one notice for each species of [MW] whose
    phase tag is not one of the eight phases, in the order of [MW], and
    nothing else. *)
Theorem lump_species_log MW si m log res :
  lump_species MW si m = (log, inr res) -> log = phase_notices MW.
Proof.
  unfold lump_species. intros H.
  apply bind_inr_log in H as (l1 & [L pf1] & l2 & Hf & H & ->).
  cbv beta iota delta [mret M_ret ret] in H. injection H as <- _.
  assert (Hw0 : forall w, rows_of_width w (replicate (length m) (replicate w (0 : Q)))).
  { intros w r row Hr. apply lookup_replicate in Hr as [-> _]. apply length_replicate. }
  destruct (foldlM_lump_cols _ _ _ _ _ _ _ _ Hf (length_replicate _ _) (Hw0 8%nat)
              (length_replicate _ _) (Hw0 2%nat)) as (-> & _).
  apply app_nil_r.
Qed.

(** X: each row of [morelumped] has three entries that sum to the total
    of the corresponding row of [lumped]. *)
Theorem lump_species_more_lumped_total MW si m log lumped pf ml :
  lump_species MW si m = (log, inr (lumped, pf, ml)) ->
  length ml = length lumped /\
  forall r lrow, lumped !! r = Some lrow ->
    exists mlrow, ml !! r = Some mlrow /\ length mlrow = 3%nat /\ np_sum mlrow == np_sum lrow.
Proof.
  intros H'. unfold lump_species in H'.
  apply bind_inr in H' as (l1 & [L pf1] & l2 & Hf & H').
  cbv beta iota delta [mret M_ret ret] in H'. injection H' as _ H1 H2 H3. subst.
  assert (Hw0 : forall w, rows_of_width w (replicate (length m) (replicate w (0 : Q)))).
  { intros w r row Hr. apply lookup_replicate in Hr as [-> _]. apply length_replicate. }
  destruct (foldlM_lump_cols _ _ _ _ _ _ _ _ Hf (length_replicate _ _) (Hw0 8%nat)
              (length_replicate _ _) (Hw0 2%nat)) as (_ & _ & Hw & _).
  unfold more_lumped. rewrite length_map. split; [done |].
  intros r lrow Hl. rewrite lookup_map, Hl. eexists. split; [reflexivity | split; [done |]].
  pose proof (Hw r lrow Hl) as H8.
  do 8 (destruct lrow as [|? lrow]; [discriminate |]). destruct lrow; [| discriminate].
  unfold np_sum. simpl. ring.
Qed.

(* ------------------------------------------------------------------ *)
(** ** The sums of [tar_elem_analysis] and [C_fun_gen] *)

Lemma weighted_sum_cons sel vec sp MW si row k :
  weighted_sum sel vec (sp :: MW) si row k ==
  (if sel sp.2 then default 0 (si !! sp.1 ≫= fun i => row !! i) * nth k (vec sp.2) 0 else 0)
  + weighted_sum sel vec MW si row k.
Proof. unfold weighted_sum. simpl map. apply np_sum_cons. Qed.

Lemma weighted_sum_nil sel vec si row k : weighted_sum sel vec [] si row k == 0.
Proof. reflexivity. Qed.

Lemma nth_axpy (v w : list Q) (c : Q) (k : nat) :
  (k < length v)%nat -> (k < length w)%nat ->
  nth k (axpy v c w) 0 == nth k v 0 + c * nth k w 0.
Proof.
  revert w k. induction v as [|a v IH]; intros [|b w] k Hv Hw; simpl in *; try lia.
  destruct k as [|k]; simpl; [reflexivity |]. apply IH; lia.
Qed.

Lemma length_axpy (v w : list Q) c : length (axpy v c w) = Nat.min (length v) (length w).
Proof. apply length_zip_with. Qed.

Lemma elem_contrib_inr e l w :
  elem_contrib e = (l, inr w) ->
  length w = 3%nat /\ forall k, (k < 3)%nat -> nth k w 0 = nth k (mw_elem e) 0.
Proof.
  unfold elem_contrib, py_get. intros H.
  inv_bind H e0 H0. inv_bind H e1 H1. inv_bind H e2 H2.
  cbv [mret M_ret ret] in H. injection H as _ <-.
  apply of_option_inr in H0, H1, H2.
  rewrite (py_index_nat _ 0) in H0. rewrite (py_index_nat _ 1) in H1.
  rewrite (py_index_nat _ 2) in H2.
  split; [done |]. intros k Hk.
  do 3 (destruct k as [|k]; [symmetry; by apply nth_lookup_Some |]). lia.
Qed.

Lemma fgroup_contrib_inr e l w :
  fgroup_contrib e = (l, inr w) ->
  length w = 7%nat /\ forall k, (k < 7)%nat -> nth k w 0 = nth k (mw_fgroups e) 0.
Proof.
  unfold fgroup_contrib. intros H. apply mapM_inr in H.
  split; [symmetry; by apply Forall2_length in H |].
  intros k Hk.
  assert (Hl : [0; 1; 2; 3; 4; 5; 6]%Z !! k = Some (Z.of_nat k)).
  { do 7 (destruct k as [|k]; [reflexivity |]). lia. }
  destruct (Forall2_lookup_l _ _ _ _ _ H Hl) as (xv & Hx & lg & Hg).
  unfold py_get in Hg. apply of_option_inr in Hg. rewrite py_index_nat in Hg.
  rewrite (nth_lookup_Some _ _ _ _ Hx). symmetry. by apply nth_lookup_Some.
Qed.

Lemma foldlM_ea0_step_sum MW si y acc log acc' :
  foldlM (ea0_step si y) acc MW = (log, inr acc') -> length acc = 3%nat ->
  length acc' = 3%nat /\
  forall k, (k < 3)%nat -> nth k acc' 0 ==
    nth k acc 0 + weighted_sum (fun _ => true) mw_elem MW si (default [] (py_index y 0)) k.
Proof.
  revert acc log. induction MW as [|[s e] MW IH]; intros acc log H Hl.
  - cbv [foldlM mret M_ret ret] in H. injection H as _ <-.
    split; [done |]. intros k _. rewrite weighted_sum_nil. ring.
  - cbn [foldlM] in H. apply bind_inr in H as (l1 & acc1 & l2 & Hs & H).
    unfold ea0_step in Hs. cbn [fst snd] in Hs.
    inv_bind Hs i Hi. inv_bind Hs c Hc.
    apply of_option_inr in Hi. apply np_get2_inr in Hc as (row & Hrow & Hc).
    assert (Hstep : length acc1 = 3%nat /\ forall k, (k < 3)%nat ->
              nth k acc1 0 == nth k acc 0 + c * nth k (mw_elem e) 0).
    { destruct (Qeq_bool c 0) eqn:Ec.
      - cbv [mret M_ret ret] in Hs. injection Hs as _ <-. split; [done |].
        intros k _. apply Qeq_bool_eq in Ec. rewrite Ec. ring.
      - inv_bind Hs w Hw. cbv [mret M_ret ret] in Hs. injection Hs as _ <-.
        apply elem_contrib_inr in Hw as [Hwl Hwk].
        rewrite length_axpy, Hl, Hwl. split; [done |].
        intros k Hk. rewrite nth_axpy by lia. rewrite Hwk by done. reflexivity. }
    destruct Hstep as [Hl1 Hk1].
    destruct (IH _ _ H Hl1) as [Hl' Hk']. split; [done |].
    intros k Hk. rewrite Hk', Hk1, weighted_sum_cons by done.
    cbn [fst snd]. rewrite Hrow, Hi. simpl. rewrite Hc. simpl. ring.
Qed.

Lemma foldlM_ea_step_sum MW si y ti acc log acc' :
  foldlM (ea_step si y ti) acc MW = (log, inr acc') -> length acc = 3%nat ->
  length acc' = 3%nat /\
  forall k, (k < 3)%nat -> nth k acc' 0 ==
    nth k acc 0 + weighted_sum (fun e => bool_decide (mw_phase e ∈ tar_phases)) mw_elem MW si
                    (default [] (py_index y ti)) k.
Proof.
  revert acc log. induction MW as [|[s e] MW IH]; intros acc log H Hl.
  - cbv [foldlM mret M_ret ret] in H. injection H as _ <-.
    split; [done |]. intros k _. rewrite weighted_sum_nil. ring.
  - cbn [foldlM] in H. apply bind_inr in H as (l1 & acc1 & l2 & Hs & H).
    unfold ea_step in Hs. cbn [fst snd] in Hs.
    assert (Hstep : length acc1 = 3%nat /\ forall k, (k < 3)%nat ->
              nth k acc1 0 == nth k acc 0 +
                (if bool_decide (mw_phase e ∈ tar_phases)
                 then default 0 (si !! s ≫= fun i => default [] (py_index y ti) !! i)
                      * nth k (mw_elem e) 0 else 0)).
    { case_bool_decide as Hp.
      - inv_bind Hs i Hi. inv_bind Hs c Hc. inv_bind Hs w Hw.
        cbv [mret M_ret ret] in Hs. injection Hs as _ <-.
        apply of_option_inr in Hi. apply np_get2_inr in Hc as (row & Hrow & Hc).
        apply elem_contrib_inr in Hw as [Hwl Hwk].
        rewrite length_axpy, Hl, Hwl. split; [done |].
        intros k Hk. rewrite nth_axpy by lia. rewrite Hwk by done.
        rewrite Hi, Hrow. simpl. rewrite Hc. reflexivity.
      - cbv [mret M_ret ret] in Hs. injection Hs as _ <-. split; [done |].
        intros k _. ring. }
    destruct Hstep as [Hl1 Hk1].
    destruct (IH _ _ H Hl1) as [Hl' Hk']. split; [done |].
    intros k Hk. rewrite Hk', Hk1, weighted_sum_cons by done.
    cbn [fst snd]. ring.
Qed.

(** X: [ea0] holds, for C, H and O, the sum over all species of [MW] of
    their concentration in the first row of [y] times their elemental
    composition; [ea] holds the same sum over the tar species (phase t, lt
    or H2O) at the row [t_index]. Species with zero initial concentration
    are skipped by the code without changing the sum. *)
Theorem tar_elem_analysis_sums MW si y t tc log r :
  tar_elem_analysis MW si y t tc = (log, inr r) ->
  length (ea0 r) = 3%nat /\ length (ea r) = 3%nat /\
  forall k, (k < 3)%nat ->
    nth k (ea0 r) 0 == weighted_sum (fun _ => true) mw_elem MW si
                         (default [] (py_index y 0)) k /\
    nth k (ea r) 0 == weighted_sum (fun e => bool_decide (mw_phase e ∈ tar_phases)) mw_elem
                        MW si (default [] (py_index y (t_index r))) k.
Proof.
  unfold tar_elem_analysis. intros H.
  inv_bind H e0 He0. inv_bind H p Hp. destruct p as [ti ch]. cbv beta iota in H.
  inv_bind H e He. cbv [mret M_ret ret] in H. injection H as _ <-. simpl.
  destruct (foldlM_ea0_step_sum _ _ _ _ _ _ He0 eq_refl) as [Hl0 Hk0].
  destruct (foldlM_ea_step_sum _ _ _ _ _ _ _ He eq_refl) as [Hl Hk].
  split_and!; [done | done |]. intros k Hk3.
  rewrite Hk0, Hk by done.
  assert (Hz : nth k [0; 0; 0] 0 = 0) by (do 3 (destruct k as [|k]; [reflexivity |]); lia).
  rewrite Hz. split; ring.
Qed.

Lemma foldlM_inr_each {A B} (f : A -> B -> M A) (P : B -> Prop) a l log r :
  (forall a b lg a', f a b = (lg, inr a') -> P b) ->
  foldlM f a l = (log, inr r) -> Forall P l.
Proof.
  intros Hf. revert a log. induction l as [|b l IH]; intros a log H; [constructor |].
  cbn [foldlM] in H. apply bind_inr in H as (l1 & a1 & l2 & Hs & H).
  constructor; [exact (Hf _ _ _ _ Hs) | exact (IH _ _ H)].
Qed.

Lemma dict_get_inr {V} (d : gmap string V) k l v : dict_get d k = (l, inr v) -> d !! k = Some v.
Proof. apply of_option_inr. Qed.

Lemma ea_step_indexed si y ti acc sp lg acc' :
  ea_step si y ti acc sp = (lg, inr acc') ->
  mw_phase sp.2 ∈ tar_phases ->
  exists i row, si !! sp.1 = Some i /\ py_index y ti = Some row /\ is_Some (row !! i).
Proof.
  unfold ea_step. intros H Hp. rewrite bool_decide_true in H by done.
  inv_bind H i Hi. inv_bind H c Hc.
  apply of_option_inr in Hi. apply np_get2_inr in Hc as (row & Hrow & Hc). eauto.
Qed.

(** X: by default [tar_elem_analysis] analyses the last row of the
    simulation; given an index [i] it analyses row [i] and reports the time
    [t[i]]. The row analysed is row [t_index]: [ea] holds, for C, H and O,
    the sum over the tar species (phase t, lt or H2O) of their value in that
    row of [y] times their elemental composition, and every tar species has
    an entry in [speciesindices] and a column in that row. *)
Theorem tar_elem_analysis_time MW si y t tc log r :
  tar_elem_analysis MW si y t tc = (log, inr r) ->
  let idx := match tc with TEnd => (Z.of_nat (length t) - 1)%Z | TIndex i => i end in
  t_index r = idx /\
  match tc with
  | TEnd => choice r = ChoiceEnd
  | TIndex i => exists ti, py_index t i = Some ti /\ choice r = ChoiceAt ti
  end /\
  (forall k, (k < 3)%nat ->
     nth k (ea r) 0 == weighted_sum (fun e => bool_decide (mw_phase e ∈ tar_phases)) mw_elem
                         MW si (default [] (py_index y idx)) k) /\
  (forall s e, (s, e) ∈ MW -> mw_phase e ∈ tar_phases ->
     exists i row, si !! s = Some i /\ py_index y idx = Some row /\ is_Some (row !! i)).
Proof.
  intros H idx. unfold tar_elem_analysis in H.
  inv_bind H e0 He0. inv_bind H p Hp. destruct p as [ti ch]. cbv beta iota in H.
  inv_bind H e He. cbv [mret M_ret ret] in H. injection H as _ <-. simpl.
  assert (Hti : ti = idx /\
            match tc with
            | TEnd => ch = ChoiceEnd
            | TIndex i => exists tv, py_index t i = Some tv /\ ch = ChoiceAt tv
            end).
  { subst idx. destruct tc as [| i].
    - cbv [mret M_ret ret] in Hp. injection Hp as _ <- <-. done.
    - inv_bind Hp tv Htv. cbv [mret M_ret ret] in Hp. injection Hp as _ <- <-.
      unfold py_get in Htv. apply of_option_inr in Htv. eauto. }
  destruct Hti as [-> Hch]. split_and!; [done | done | |].
  - destruct (foldlM_ea_step_sum _ _ _ _ _ _ _ He eq_refl) as [_ Hk].
    intros k Hk3. rewrite Hk by done.
    assert (Hz : nth k [0; 0; 0] 0 = 0) by (do 3 (destruct k as [|k]; [reflexivity |]); lia).
    rewrite Hz. ring.
  - assert (Hall := foldlM_inr_each _ _ _ _ _ _ (ea_step_indexed si y idx) He).
    intros s e' Hin Hp'. rewrite Forall_forall in Hall. exact (Hall (s, e') Hin Hp').
Qed.

Lemma foldlM_cfun_step_sum MW fractions si y C time log C' time' :
  foldlM (cfun_step fractions si y) (C, time) MW = (log, inr (C', time')) ->
  length C = 7%nat ->
  length C' = 7%nat /\
  forall k, (k < 7)%nat -> nth k C' 0 == nth k C 0 +
    (if bool_decide (fractions = ["initial"]%string)
     then weighted_sum (fun _ => true) mw_fgroups MW si (default [] (py_index y 0)) k
     else weighted_sum (fun e => bool_decide (mw_phase e ∈ fractions)) mw_fgroups MW si
            (default [] (py_index y time)) k).
Proof.
  revert C time log. induction MW as [|[s e] MW IH]; intros C time log H Hl.
  - cbv [foldlM mret M_ret ret] in H. injection H as _ <- _.
    split; [done |]. intros k _. case_bool_decide; rewrite weighted_sum_nil; ring.
  - cbn [foldlM] in H. apply bind_inr in H as (l1 & [C1 time1] & l2 & Hs & H).
    unfold cfun_step in Hs. cbn [fst snd] in Hs.
    case_bool_decide as Hini.
    + assert (Hstep : length C1 = 7%nat /\ forall k, (k < 7)%nat ->
                nth k C1 0 == nth k C 0 +
                  default 0 (si !! s ≫= fun i => default [] (py_index y 0) !! i)
                  * nth k (mw_fgroups e) 0).
      { inv_bind Hs i Hi. inv_bind Hs c Hc.
        apply of_option_inr in Hi. apply np_get2_inr in Hc as (row & Hrow & Hc).
        rewrite Hi, Hrow. simpl. rewrite Hc. simpl.
        destruct (Qeq_bool c 0) eqn:Ec.
        - cbv [mret M_ret ret] in Hs. injection Hs as _ <- _. split; [done |].
          intros k _. apply Qeq_bool_eq in Ec. rewrite Ec. ring.
        - inv_bind Hs w Hw. cbv [mret M_ret ret] in Hs. injection Hs as _ <- _.
          apply fgroup_contrib_inr in Hw as [Hwl Hwk].
          rewrite length_axpy, Hl, Hwl. split; [done |].
          intros k Hk. rewrite nth_axpy by lia. rewrite Hwk by done. reflexivity. }
      destruct Hstep as [Hl1 Hk1].
      destruct (IH _ _ _ H Hl1) as [Hl' Hk']. split; [done |].
      intros k Hk. rewrite Hk', Hk1 by done.
      rewrite weighted_sum_cons. cbn [fst snd]. ring.
    + assert (Hstep : time1 = time /\ length C1 = 7%nat /\ forall k, (k < 7)%nat ->
                nth k C1 0 == nth k C 0 +
                  (if bool_decide (mw_phase e ∈ fractions)
                   then default 0 (si !! s ≫= fun i => default [] (py_index y time) !! i)
                        * nth k (mw_fgroups e) 0 else 0)).
      { case_bool_decide as Hp.
        - inv_bind Hs i Hi. inv_bind Hs c Hc. inv_bind Hs w Hw.
          cbv [mret M_ret ret] in Hs. injection Hs as _ <- <-.
          apply of_option_inr in Hi. apply np_get2_inr in Hc as (row & Hrow & Hc).
          apply fgroup_contrib_inr in Hw as [Hwl Hwk].
          rewrite length_axpy, Hl, Hwl. split_and!; [done | done |].
          intros k Hk. rewrite nth_axpy by lia. rewrite Hwk by done.
          rewrite Hi, Hrow. simpl. rewrite Hc. reflexivity.
        - cbv [mret M_ret ret] in Hs. injection Hs as _ <- <-. split_and!; [done | done |].
          intros k _. ring. }
      destruct Hstep as (-> & Hl1 & Hk1).
      destruct (IH _ _ _ H Hl1) as [Hl' Hk']. split; [done |].
      intros k Hk. rewrite Hk', Hk1 by done.
      rewrite weighted_sum_cons. cbn [fst snd]. ring.
Qed.

(** X: [C_fun_gen] returns the normalized vector of the seven
    functional-group contents: for [['initial']] the sum over all species
    of their concentration in the first row of [y] times their
    functional-group vector, otherwise the same sum over the species whose
    phase is in [fractions], at the row [time]. *)
Theorem C_fun_gen_sums MW fractions si y time log v :
  C_fun_gen MW fractions si y time = (log, inr v) ->
  exists C, v = np_normalize C /\ length C = 7%nat /\
    forall k, (k < 7)%nat -> nth k C 0 ==
      (if bool_decide (fractions = ["initial"]%string)
       then weighted_sum (fun _ => true) mw_fgroups MW si (default [] (py_index y 0)) k
       else weighted_sum (fun e => bool_decide (mw_phase e ∈ fractions)) mw_fgroups MW si
              (default [] (py_index y time)) k).
Proof.
  unfold C_fun_gen. intros H.
  inv_bind H p Hp. destruct p as [C time']. cbv [mret M_ret ret] in H. injection H as _ <-.
  destruct (foldlM_cfun_step_sum _ _ _ _ _ _ _ _ _ Hp (length_replicate _ _)) as [Hl Hk].
  exists C. split_and!; [done | done |].
  intros k Hk7. rewrite Hk by done. rewrite nth_replicate_0. ring.
Qed.

(* ------------------------------------------------------------------ *)
(** ** The species read by the analysis functions *)

Lemma lump_step_indexed si m st sp lg st' :
  lump_step si m st sp = (lg, inr st') ->
  mw_phase sp.2 ∈ lump_phases -> is_Some (si !! sp.1).
Proof.
  destruct st as [L pf], sp as [s e]. simpl. intros H Hp. unfold lump_step in H. cbv beta iota zeta in H.
  unfold add_species_column in H.
  destruct (String.eqb_spec (mw_phase e) "s");
    [inv_bind H p Hs; inv_bind Hs i Hi; apply dict_get_inr in Hi; eauto |].
  destruct (String.eqb_spec (mw_phase e) "t");
    [inv_bind H p Hs; inv_bind Hs i Hi; apply dict_get_inr in Hi; eauto |].
  destruct (String.eqb_spec (mw_phase e) "lt");
    [inv_bind H p Hs; inv_bind Hs i Hi; apply dict_get_inr in Hi; eauto |].
  destruct (String.eqb_spec (mw_phase e) "g");
    [inv_bind H p Hs; inv_bind Hs i Hi; apply dict_get_inr in Hi; eauto |].
  destruct (String.eqb_spec (mw_phase e) "CO");
    [inv_bind H p Hs; inv_bind Hs i Hi; apply dict_get_inr in Hi; eauto |].
  destruct (String.eqb_spec (mw_phase e) "CO2");
    [inv_bind H p Hs; inv_bind Hs i Hi; apply dict_get_inr in Hi; eauto |].
  destruct (String.eqb_spec (mw_phase e) "H2O");
    [inv_bind H p Hs; inv_bind Hs i Hi; apply dict_get_inr in Hi; eauto |].
  destruct (String.eqb_spec (mw_phase e) "char");
    [inv_bind H p Hs; inv_bind Hs i Hi; apply dict_get_inr in Hi; eauto |].
  exfalso. apply list_elem_of_In in Hp. simpl in Hp. intuition congruence.
Qed.

Lemma foldlM_app_inr {A B} (f : A -> B -> M A) a l1 l2 lg a' :
  foldlM f a l1 = (lg, inr a') ->
  foldlM f a (l1 ++ l2) = (lg ++ (foldlM f a' l2).1, (foldlM f a' l2).2).
Proof.
  revert a lg. induction l1 as [|b l1 IH]; intros a lg H.
  - cbv [foldlM mret M_ret ret] in H. injection H as <- <-. simpl.
    by destruct (foldlM f a l2).
  - cbn [foldlM app] in *. apply bind_inr_log in H as (l1' & a1 & l2' & Hb & H & ->).
    rewrite (bind_inr_step _ _ _ _ Hb), (IH _ _ H). simpl. by rewrite app_assoc.
Qed.

Lemma lump_step_missing si m st s e :
  mw_phase e ∈ lump_phases -> si !! s = None ->
  lump_step si m st (s, e) = ([], inl (KeyError s)).
Proof.
  destruct st as [L pf]. intros Hp Hs.
  unfold lump_step, add_species_column, dict_get, of_option. rewrite Hs.
  apply list_elem_of_In in Hp. simpl in Hp.
  repeat (destruct Hp as [Hp | Hp]; [rewrite <- Hp; reflexivity |]). done.
Qed.

(** X: [lump_species] never skips a species: when it succeeds, every
    species of [MW] with one of the eight phase tags has an entry in
    [speciesindices]; and a tagged species with no entry makes it raise
    [KeyError] at [speciesindices[species]]: when the loop gets through
    the species before it, [lump_species] raises [KeyError] for that
    species, after the output of those species. *)
Theorem lump_species_indexed MW si m :
  (forall log res, lump_species MW si m = (log, inr res) ->
     forall s e, (s, e) ∈ MW -> mw_phase e ∈ lump_phases -> is_Some (si !! s)) /\
  (forall pre s e post log res, MW = pre ++ (s, e) :: post ->
     lump_species pre si m = (log, inr res) ->
     mw_phase e ∈ lump_phases -> si !! s = None ->
     lump_species MW si m = (log, inl (KeyError s))).
Proof.
  split.
  - unfold lump_species. intros log res H. apply bind_inr in H as (l1 & st & l2 & Hf & _).
    assert (Hall := foldlM_inr_each _ _ _ _ _ _ (lump_step_indexed si m) Hf).
    intros s e Hin. rewrite Forall_forall in Hall. exact (Hall (s, e) Hin).
  - intros pre s e post log res -> H Hp Hs. unfold lump_species in *.
    apply bind_inr_log in H as (l1 & [L pf] & l2 & Hf & H & ->).
    cbv [mret M_ret ret] in H. injection H as <- _.
    rewrite (foldlM_app_inr _ _ _ _ _ _ Hf). cbn [foldlM].
    rewrite lump_step_missing by done. simpl. by rewrite !app_nil_r.
Qed.

Lemma ea0_step_indexed si y acc sp lg acc' :
  ea0_step si y acc sp = (lg, inr acc') ->
  exists i row0, si !! sp.1 = Some i /\ py_index y 0 = Some row0 /\ is_Some (row0 !! i).
Proof.
  unfold ea0_step. intros H. inv_bind H i Hi. inv_bind H c Hc.
  apply dict_get_inr in Hi. apply np_get2_inr in Hc as (row & Hrow & Hc). eauto.
Qed.

(** X: when [tar_elem_analysis] succeeds, every species of [MW] has an
    entry in [speciesindices] and a column in the first row of [y], since
    the loop computing [ea0] reads [y[0, speciesindices[species]]] for each
    species before testing it against 0. *)
Theorem tar_elem_analysis_indexed MW si y t tc log r :
  tar_elem_analysis MW si y t tc = (log, inr r) ->
  forall s e, (s, e) ∈ MW ->
    exists i row0, si !! s = Some i /\ py_index y 0 = Some row0 /\ is_Some (row0 !! i).
Proof.
  unfold tar_elem_analysis. intros H. inv_bind H e0 He0.
  assert (Hall := foldlM_inr_each _ _ _ _ _ _ (ea0_step_indexed si y) He0).
  intros s e Hin. rewrite Forall_forall in Hall. exact (Hall (s, e) Hin).
Qed.

Lemma cfun_step_indexed fractions si y st sp lg st' :
  cfun_step fractions si y st sp = (lg, inr st') ->
  fractions = ["initial"]%string \/ mw_phase sp.2 ∈ fractions -> is_Some (si !! sp.1).
Proof.
  destruct st as [C time]. unfold cfun_step. intros H Hsel.
  case_bool_decide as Hini; [inv_bind H i Hi; apply dict_get_inr in Hi; eauto |].
  case_bool_decide as Hp; [inv_bind H i Hi; apply dict_get_inr in Hi; eauto |].
  tauto.
Qed.

(** X: when [C_fun_gen] succeeds, every species of [MW] it adds up (all
    species for [['initial']], otherwise those whose phase is in
    [fractions]) has an entry in [speciesindices]. *)
Theorem C_fun_gen_indexed MW fractions si y time log v :
  C_fun_gen MW fractions si y time = (log, inr v) ->
  forall s e, (s, e) ∈ MW -> fractions = ["initial"]%string \/ mw_phase e ∈ fractions ->
    is_Some (si !! s).
Proof.
  unfold C_fun_gen. intros H. inv_bind H p Hp.
  assert (Hall := foldlM_inr_each _ _ _ _ _ _ (cfun_step_indexed fractions si y) Hp).
  intros s e Hin. rewrite Forall_forall in Hall. exact (Hall (s, e) Hin).
Qed.

(* ------------------------------------------------------------------ *)
(** ** Instances of the further properties *)

Lemma load_results_aligned_witness :
  length (r_y sample_result) = length (r_t sample_result) /\
  length (r_T sample_result) = length (r_t sample_result) /\
  rows_of_width (length (r_specieslist sample_result)) (r_y sample_result).
Proof. exact (load_results_aligned sample_float sample_fs_ab "run" _ sample_result sample_load). Defined.

Lemma read_results_files_edge_cases_witness :
  read_results_files sample_float sample_fs_ab "nofile" ["A"]%string
    = ([EOpen "nofile"], inl (IOError "nofile")) /\
  read_results_files sample_float sample_fs_ab "run/model.c" ["A"]%string
    = ([EOpen "run/model.c"], inl (ValueError "negative dimensions are not allowed")) /\
  read_results_files sample_float (sample_fs sample_modelc (Some (sample_out [])) None)
    "run/results_dir/ddasac_results_1.out" ["A"]%string
    = ([EOpen "run/results_dir/ddasac_results_1.out"; EOpen "run/results_dir/ddasac_results_1.out"],
       inr ([], [], [])).
Proof.
  split_and!.
  - apply (proj1 (read_results_files_edge_cases sample_float sample_fs_ab "nofile" ["A"]%string)).
    vm_compute. reflexivity.
  - apply (proj1 (proj2 (read_results_files_edge_cases sample_float sample_fs_ab "run/model.c"
                           ["A"]%string)) (TextFile sample_modelc)); vm_compute; [reflexivity | lia].
  - apply (proj2 (proj2 (read_results_files_edge_cases sample_float
             (sample_fs sample_modelc (Some (sample_out [])) None)
             "run/results_dir/ddasac_results_1.out" ["A"]%string)) (sample_out []));
      vm_compute; reflexivity.
Defined.

Lemma load_results_params_witness :
  load_results sample_float short_params_fs "run"
    = ([EOpen "run/results_dir/prog_params.pkl"], inl IndexError) /\
  r_params sample_result = take 9 (replicate 9 (PNum 1)).
Proof.
  split.
  - apply (proj1 (load_results_params sample_float short_params_fs "run" [PNum 1]
                    eq_refl eq_refl)).
    simpl. lia.
  - exact (proj2 (load_results_params sample_float sample_fs_ab "run" (replicate 9 (PNum 1))
                    eq_refl eq_refl) _ sample_result sample_load).
Defined.

Lemma load_results_missing_later_segments_witness :
  exists t y T,
    load_results sample_float one_segment_fs "run"
    = ([EOpen "run/results_dir/prog_params.pkl"; EOpen "run/model.c";
        EOpen "run/results_dir/ddasac_results_1.out";
        EOpen "run/results_dir/ddasac_results_1.out";
        EOpen "run/results_dir/ddasac_results_2.out";
        EPrint "There is not a second DDASAC results file (isothermal hold)";
        EOpen "run/results_dir/ddasac_results_3.out";
        EPrint "There is not a third DDASAC results file (cool down period)"],
       inr {| r_params := take 9 (replicate 9 (PNum 1)); r_y := y; r_t := t; r_T := T;
              r_specieslist := (build_species_maps (species_from_modelc sample_modelc)).1.1;
              r_speciesindices := (build_species_maps (species_from_modelc sample_modelc)).1.2;
              r_indices_to_species := (build_species_maps (species_from_modelc sample_modelc)).2 |}).
Proof.
  destruct (read_results_files sample_float one_segment_fs "run/results_dir/ddasac_results_1.out"
              (build_species_maps (species_from_modelc sample_modelc)).1.1)
    as [lg [e | [[t y] T]]] eqn:E.
  { vm_compute in E. discriminate. }
  pose proof (read_results_files_log _ _ _ _ _ _ E) as ->.
  exists t, y, T.
  exact (load_results_missing_later_segments sample_float one_segment_fs "run"
           (replicate 9 (PNum 1)) (TextFile sample_modelc) t y T
           eq_refl eq_refl ltac:(simpl; lia) eq_refl E eq_refl eq_refl).
Defined.

Lemma lump_species_columns_witness :
  exists log lumped pf ml,
    lump_species sample_MW sample_si sample_m = (log, inr (lumped, pf, ml)) /\
    length lumped = length sample_m /\ length pf = length sample_m /\
    forall r mrow, sample_m !! r = Some mrow ->
      exists lrow prow, lumped !! r = Some lrow /\ pf !! r = Some prow /\
        length lrow = 8%nat /\ length prow = 2%nat /\
        (forall k, (k < 8)%nat -> nth k lrow 0 == tagged_mass (lump_column k) sample_MW sample_si mrow) /\
        (forall j, (j < 2)%nat -> nth j prow 0 == tagged_mass (phenolic_column j) sample_MW sample_si mrow).
Proof.
  destruct (lump_species sample_MW sample_si sample_m) as [log [e | [[lumped pf] ml]]] eqn:E.
  { vm_compute in E. discriminate. }
  exists log, lumped, pf, ml. split; [reflexivity |].
  exact (lump_species_columns _ _ _ _ _ _ _ E).
Defined.

Lemma lump_species_log_witness :
  exists log res,
    lump_species untagged_MW untagged_si untagged_m = (log, inr res) /\
    log = phase_notices untagged_MW.
Proof.
  destruct (lump_species untagged_MW untagged_si untagged_m) as [log [e | res]] eqn:E.
  { vm_compute in E. discriminate. }
  exists log, res. split; [reflexivity |].
  exact (lump_species_log _ _ _ _ _ E).
Defined.

Lemma lump_species_more_lumped_total_witness :
  exists log lumped pf ml,
    lump_species sample_MW sample_si sample_m = (log, inr (lumped, pf, ml)) /\
    length ml = length lumped /\
    forall r lrow, lumped !! r = Some lrow ->
      exists mlrow, ml !! r = Some mlrow /\ length mlrow = 3%nat /\ np_sum mlrow == np_sum lrow.
Proof.
  destruct (lump_species sample_MW sample_si sample_m) as [log [e | [[lumped pf] ml]]] eqn:E.
  { vm_compute in E. discriminate. }
  exists log, lumped, pf, ml. split; [reflexivity |].
  exact (lump_species_more_lumped_total _ _ _ _ _ _ _ E).
Defined.

Lemma tar_elem_analysis_sums_witness :
  exists log r,
    tar_elem_analysis sample_MW sample_si sample_y [0; 1] TEnd = (log, inr r) /\
    length (ea0 r) = 3%nat /\ length (ea r) = 3%nat /\
    forall k, (k < 3)%nat ->
      nth k (ea0 r) 0 == weighted_sum (fun _ => true) mw_elem sample_MW sample_si
                           (default [] (py_index sample_y 0)) k /\
      nth k (ea r) 0 == weighted_sum (fun e => bool_decide (mw_phase e ∈ tar_phases)) mw_elem
                          sample_MW sample_si (default [] (py_index sample_y (t_index r))) k.
Proof.
  destruct (tar_elem_analysis sample_MW sample_si sample_y [0; 1] TEnd) as [log [e | r]] eqn:E.
  { vm_compute in E. discriminate. }
  exists log, r. split; [reflexivity |].
  exact (tar_elem_analysis_sums _ _ _ _ _ _ _ E).
Defined.

Lemma tar_elem_analysis_time_witness :
  exists log r,
    tar_elem_analysis sample_MW sample_si sample_y [0; 1] (TIndex 1) = (log, inr r) /\
    t_index r = 1%Z /\
    (exists ti, py_index [0; 1] 1 = Some ti /\ choice r = ChoiceAt ti) /\
    (forall k, (k < 3)%nat ->
       nth k (ea r) 0 == weighted_sum (fun e => bool_decide (mw_phase e ∈ tar_phases)) mw_elem
                           sample_MW sample_si (default [] (py_index sample_y 1)) k) /\
    (forall s e, (s, e) ∈ sample_MW -> mw_phase e ∈ tar_phases ->
       exists i row, sample_si !! s = Some i /\ py_index sample_y 1 = Some row /\
                     is_Some (row !! i)).
Proof.
  destruct (tar_elem_analysis sample_MW sample_si sample_y [0; 1] (TIndex 1))
    as [log [e | r]] eqn:E.
  { vm_compute in E. discriminate. }
  exists log, r. split; [reflexivity |].
  exact (tar_elem_analysis_time _ _ _ _ _ _ _ E).
Defined.

Lemma C_fun_gen_sums_witness :
  exists log v,
    C_fun_gen sample_MW ["t"]%string sample_si sample_y 1 = (log, inr v) /\
    exists C, v = np_normalize C /\ length C = 7%nat /\
      forall k, (k < 7)%nat -> nth k C 0 ==
        (if bool_decide (["t"]%string = ["initial"]%string)
         then weighted_sum (fun _ => true) mw_fgroups sample_MW sample_si
                (default [] (py_index sample_y 0)) k
         else weighted_sum (fun e => bool_decide (mw_phase e ∈ ["t"]%string)) mw_fgroups
                sample_MW sample_si (default [] (py_index sample_y 1)) k).
Proof.
  destruct (C_fun_gen sample_MW ["t"]%string sample_si sample_y 1) as [log [e | v]] eqn:E.
  { vm_compute in E. discriminate. }
  exists log, v. split; [reflexivity |].
  exact (C_fun_gen_sums _ _ _ _ _ _ _ E).
Defined.

Lemma species_from_modelc_roundtrip_witness :
  species_from_modelc ("int n;" +:+ "enum {" +:+ String.concat "," ["LIG"; "H2O"] +:+ "}" +:+ ";")
  = ["LIG"; "H2O"].
Proof.
  apply species_from_modelc_roundtrip; [discriminate | vm_compute; reflexivity | vm_compute; lia | vm_compute; reflexivity].
Defined.

Lemma lump_species_indexed_witness :
  (exists log res,
     lump_species sample_MW sample_si sample_m = (log, inr res) /\
     forall s e, (s, e) ∈ sample_MW -> mw_phase e ∈ lump_phases -> is_Some (sample_si !! s)) /\
  (exists log res,
     lump_species sample_MW sample_si sample_m = (log, inr res) /\
     lump_species (sample_MW ++ [("LIGNIN", sample_entry "s" "" [] [])]%string) sample_si sample_m
     = (log, inl (KeyError "LIGNIN"))).
Proof.
  destruct (lump_species sample_MW sample_si sample_m) as [log [e | res]] eqn:E.
  { vm_compute in E. discriminate. }
  split; exists log, res; split; [reflexivity | | reflexivity |].
  - exact (proj1 (lump_species_indexed sample_MW sample_si sample_m) _ _ E).
  - exact (proj2 (lump_species_indexed (sample_MW ++ [("LIGNIN", sample_entry "s" "" [] [])]%string)
                    sample_si sample_m)
             sample_MW "LIGNIN" (sample_entry "s" "" [] []) [] log res eq_refl E
             ltac:(apply (bool_decide_unpack _); vm_compute; reflexivity) eq_refl).
Defined.

Lemma tar_elem_analysis_indexed_witness :
  exists log r,
    tar_elem_analysis sample_MW sample_si sample_y [0; 1] TEnd = (log, inr r) /\
    forall s e, (s, e) ∈ sample_MW ->
      exists i row0, sample_si !! s = Some i /\ py_index sample_y 0 = Some row0 /\
                     is_Some (row0 !! i).
Proof.
  destruct (tar_elem_analysis sample_MW sample_si sample_y [0; 1] TEnd) as [log [e | r]] eqn:E.
  { vm_compute in E. discriminate. }
  exists log, r. split; [reflexivity |].
  exact (tar_elem_analysis_indexed _ _ _ _ _ _ _ E).
Defined.

Lemma C_fun_gen_indexed_witness :
  exists log v,
    C_fun_gen sample_MW ["t"]%string sample_si sample_y 1 = (log, inr v) /\
    forall s e, (s, e) ∈ sample_MW -> ["t"]%string = ["initial"]%string \/ mw_phase e ∈ ["t"]%string ->
      is_Some (sample_si !! s).
Proof.
  destruct (C_fun_gen sample_MW ["t"]%string sample_si sample_y 1) as [log [e | v]] eqn:E.
  { vm_compute in E. discriminate. }
  exists log, v. split; [reflexivity |].
  exact (C_fun_gen_indexed _ _ _ _ _ _ _ E).
Defined.
